(** * Distributed ID allocator: the TypeScript [IdCompressor] adapter

    A shallow embedding of the class [IdCompressor] of the package
    typescript-id-allocator and of the native core it drives.  The
    adapter is embedded method by method over an abstract
    [WasmIdCompressor] interface; the native core, which is not part of
    the TypeScript sources, is given as one instance of that interface.
    [dispose], which frees the native object, is left out: the life time
    of the native object is not modelled.

    JavaScript numbers that carry GenCounts, tokens, capacities and
    compressed ids are integer valued and are embedded as [Z]; the only
    non-integer value the adapter ever inspects is [NaN], which has its
    own constructor in [jsnum]. *)

From Stdlib Require Import ZArith Lia String Ascii List.
From stdpp Require Import base option list gmap strings.
Import ListNotations.

Local Open Scope Z_scope.

(** ** JavaScript values, exceptions and the method monad *)

(** Second argument of [assert]: a numeric code or a message. *)
Inductive AssertTag : Type :=
  | Code (c : Z)
  | Msg (m : string).

(** Error kinds of the native core (error table of the design). *)
Inductive ErrorKind : Type :=
  | InvalidArgument
  | ProtocolError
  | UnknownId
  | UnfinalizedForeignId
  | VersionMismatch
  | OverflowError.

(** What a call can throw. *)
Inductive JsError : Type :=
  | AssertionError (tag : AssertTag)   (* [assert(false, tag)] *)
  | FailError (m : string)             (* [fail(m)] *)
  | Error (m : string)                 (* [throw new Error(m)] *)
  | WasmError (k : ErrorKind).         (* raised inside the native core *)

Inductive result (A : Type) : Type :=
  | Ok (a : A)
  | Throw (e : JsError).
Arguments Ok {A} a.
Arguments Throw {A} e.

(** A method of an object with state [S]: the outcome together with the
    state the object is left in (also when the call throws). *)
Definition M (S A : Type) : Type := S -> result A * S.

Definition ret {S A} (a : A) : M S A := fun s => (Ok a, s).
Definition throw {S A} (e : JsError) : M S A := fun s => (Throw e, s).
Definition bind {S A B} (m : M S A) (k : A -> M S B) : M S B :=
  fun s => match m s with
           | (Ok a, s') => k a s'
           | (Throw e, s') => (Throw e, s')
           end.

Declare Scope js_scope.
Delimit Scope js_scope with js.
Notation "x <- m ;; k" := (bind m (fun x => k))
  (at level 100, m at next level, right associativity) : js_scope.
Notation "m ;;; k" := (bind m (fun _ => k))
  (at level 100, right associativity) : js_scope.

(** A JavaScript number as returned by the normalisation entry points of
    the core: an integer or [NaN]. *)
Inductive jsnum : Type :=
  | JNum (z : Z)
  | JNaN.

(** Modelled from the spec: [assert] of the helper module [./util];
    errors are raised to the caller, so a failed assertion throws. *)
Definition assert {S} (cond : bool) (tag : AssertTag) : M S unit :=
  if cond then ret tt else throw (AssertionError tag).

(** Modelled from the spec: [fail] of the helper module
    [./util/utilities]; it raises its message to the caller. *)
Definition fail {S A} (m : string) : M S A := throw (FailError m).

(** [x ?? y]: [y] is evaluated only when [x] is [undefined]. *)
Definition nullish {S A} (x : option A) (y : M S A) : M S A :=
  match x with Some a => ret a | None => y end.

(** ** Identifier and range types ([./types]) *)

Abbreviation StableId := string (only parsing).
Abbreviation SessionId := string (only parsing).
Abbreviation bytes := (list Z) (only parsing).

Record Ids : Type := mkIds {
  firstGenCount : Z;
  lastGenCount : Z;
  overrides : option (list (Z * string))
}.

Record IdCreationRange : Type := mkRange {
  sessionId : SessionId;
  ids : option Ids
}.

Record SerializedIdCompressor : Type := mkSerialized {
  ser_bytes : bytes;
  version : string
}.

(** Modelled from the spec: [getIds] of [./util/idRange], a helper
    module of the package; it yields the optional [ids] member of the
    wire-visible range. *)
Definition getIds (range : IdCreationRange) : option Ids := ids range.

(** ** The interface of the native core, as the adapter uses it *)

Module WasmIdCompressor.

Record InteropIds : Type := mkInteropIds {
  first_local_gen_count : Z;
  count : Z
}.

Record InteropRange : Type := mkInteropRange { ids : option InteropIds }.

Record Api : Type := {
  t : Type;
  get_default_cluster_capacity : Z;
  new : SessionId -> result t;
  deserialize : bytes -> SessionId -> result t;
  set_cluster_capacity : Z -> M t unit;
  get_token : SessionId -> M t Z;
  finalize_range : Z -> Z -> Z -> M t unit;
  take_next_range : M t InteropRange;
  generate_next_id : M t Z;
  normalize_to_op_space : Z -> M t jsnum;
  normalize_to_session_space : Z -> Z -> M t jsnum;
  get_error_string : M t string;
  decompress : Z -> M t (option string);
  recompress : string -> M t (option Z);
  serialize : bool -> M t bytes
}.

End WasmIdCompressor.

(** ** The adapter class *)

Section Adapter.

Context (W : WasmIdCompressor.Api).
(** [currentWrittenVersion] of [./types/persisted-types/0.0.1]. *)
Context (currentWrittenVersion : string).

Local Open Scope js_scope.

Record IdCompressor : Type := mkIdCompressor {
  wasmCompressor : WasmIdCompressor.t W;
  localSessionId : SessionId;
  sessionTokens : gmap string Z
}.

(** A call [this.wasmCompressor.op(...)]. *)
Definition wasm {A} (op : M (WasmIdCompressor.t W) A) : M IdCompressor A :=
  fun c =>
    let (r, w) := op (wasmCompressor c) in
    (r, mkIdCompressor w (localSessionId c) (sessionTokens c)).

Definition maxClusterSize : Z := 2 ^ 20.

Definition defaultClusterCapacity : Z :=
  WasmIdCompressor.get_default_cluster_capacity W.

(** [create(sessionId?)]; [createSessionId] stands for the value the
    generator of [./util/utilities] hands out on this call. *)
Definition create (sessionId : option SessionId) (createSessionId : SessionId)
  : result IdCompressor :=
  let localSessionId := match sessionId with
                        | Some s => s
                        | None => createSessionId
                        end in
  match WasmIdCompressor.new W localSessionId with
  | Ok w => Ok (mkIdCompressor w localSessionId ∅)
  | Throw e => Throw e
  end.

Definition setClusterCapacity (clusterCapacity : Z) : M IdCompressor unit :=
  assert (0 <? clusterCapacity) (Code 0x481) ;;;
  assert (clusterCapacity <=? maxClusterSize) (Code 0x482) ;;;
  wasm (WasmIdCompressor.set_cluster_capacity W clusterCapacity).

Definition getOrCreateSessionToken (sessionId : SessionId) : M IdCompressor Z :=
  fun c =>
    match sessionTokens c !! sessionId with
    | Some token => (Ok token, c)
    | None =>
        (token <- wasm (WasmIdCompressor.get_token W sessionId) ;;
         fun c' =>
           (Ok token,
            mkIdCompressor (wasmCompressor c') (localSessionId c')
              (<[sessionId := token]> (sessionTokens c')))) c
    end.

Definition finalizeCreationRange (range : IdCreationRange) : M IdCompressor unit :=
  match getIds range with
  | None => ret tt
  | Some ids =>
      let first := firstGenCount ids in
      let last := lastGenCount ids in
      assert (bool_decide (overrides ids = None)) (Msg "Overrides not yet supported.") ;;;
      token <- getOrCreateSessionToken (sessionId range) ;;
      wasm (WasmIdCompressor.finalize_range W token first (first - last + 1))
  end.

Definition takeNextCreationRange : M IdCompressor IdCreationRange :=
  wasmRange <- wasm (WasmIdCompressor.take_next_range W) ;;
  fun c =>
    match WasmIdCompressor.ids wasmRange with
    | None => (Ok (mkRange (localSessionId c) None), c)
    | Some i =>
        let first_local_gen_count := WasmIdCompressor.first_local_gen_count i in
        let count := WasmIdCompressor.count i in
        (Ok (mkRange (localSessionId c)
               (Some (mkIds first_local_gen_count
                        (first_local_gen_count + count - 1) None))), c)
    end.

Definition generateCompressedId (override : option string) : M IdCompressor Z :=
  wasm (WasmIdCompressor.generate_next_id W).

(** [idOrError]: [Object.is(idNum, Number.NaN)] holds exactly of [JNaN]. *)
Definition idOrError (idNum : jsnum) : M IdCompressor Z :=
  match idNum with
  | JNaN =>
      m <- wasm (WasmIdCompressor.get_error_string W) ;;
      throw (Error m)
  | JNum z => ret z
  end.

Definition normalizeToOpSpace (id : Z) : M IdCompressor Z :=
  n <- wasm (WasmIdCompressor.normalize_to_op_space W id) ;;
  idOrError n.

Definition normalizeToSessionSpace (id : Z) (originSessionId : SessionId)
  : M IdCompressor Z :=
  session_token <- getOrCreateSessionToken originSessionId ;;
  normalizedId <- wasm (WasmIdCompressor.normalize_to_session_space W id session_token) ;;
  idOrError normalizedId.

Definition tryDecompress (id : Z) : M IdCompressor (option StableId) :=
  wasm (WasmIdCompressor.decompress W id).

Definition decompress (id : Z) : M IdCompressor StableId :=
  r <- tryDecompress id ;;
  nullish r (fail "Could not decompress.").

Definition tryRecompress (uncompressed : string) : M IdCompressor (option Z) :=
  wasm (WasmIdCompressor.recompress W uncompressed).

Definition recompress (uncompressed : string) : M IdCompressor Z :=
  r <- tryRecompress uncompressed ;;
  nullish r (fail "Could not recompress.").

Definition serialize (withSession : bool) : M IdCompressor SerializedIdCompressor :=
  b <- wasm (WasmIdCompressor.serialize W withSession) ;;
  ret (mkSerialized b currentWrittenVersion).

(** [deserialize(serialized, sessionId?)]; [generateStableId] stands for
    the value the random generator of [./util] hands out on this call. *)
Definition deserialize (serialized : SerializedIdCompressor)
    (sessionId : option SessionId) (generateStableId : StableId)
  : result IdCompressor :=
  if bool_decide (version serialized = currentWrittenVersion) then
    let localSessionId := match sessionId with
                          | Some s => s
                          | None => generateStableId
                          end in
    match WasmIdCompressor.deserialize W (ser_bytes serialized) localSessionId with
    | Ok w => Ok (mkIdCompressor w localSessionId ∅)
    | Throw e => Throw e
    end
  else Throw (AssertionError (Msg "Unknown serialized compressor version found.")).

End Adapter.

(** ** The native core

    The Rust core behind [WasmIdCompressor] lives in the crates
    [distributed-id-allocator] and [wasm-id-allocator], outside the
    TypeScript package.  Everything in this module is modelled from the
    design document of the allocator: data model, numeric UUIDs, session
    registry, generator, cluster table, finaliser, normaliser, range
    buffer and serialiser. *)

Module Core.

(** *** Numeric UUID *)

(** Modelled from the spec: value of one lowercase hexadecimal digit of
    the textual form of a StableId. *)
Definition hex_value (c : ascii) : option Z :=
  let n := Z.of_nat (nat_of_ascii c) in
  if (48 <=? n) && (n <=? 57) then Some (n - 48)
  else if (97 <=? n) && (n <=? 102) then Some (n - 87)
  else None.

(** Modelled from the spec: the lowercase digit of a value below 16. *)
Definition hex_digit (d : Z) : ascii :=
  ascii_of_nat (Z.to_nat (if d <? 10 then d + 48 else d + 87)).

(** Modelled from the spec: the canonical dash positions of
    [xxxxxxxx-xxxx-xxxx-xxxx-xxxxxxxxxxxx]. *)
Definition is_dash_pos (pos : nat) : bool :=
  (pos =? 8)%nat || (pos =? 13)%nat || (pos =? 18)%nat || (pos =? 23)%nat.

(** Modelled from the spec: reads the 36 characters of a UUID into its
    128-bit value. *)
Fixpoint parse_hex (pos : nat) (s : string) (acc : Z) : option Z :=
  match s with
  | EmptyString => if (pos =? 36)%nat then Some acc else None
  | String c s' =>
      if is_dash_pos pos then
        if Ascii.eqb c "-"%char then parse_hex (S pos) s' acc else None
      else
        match hex_value c with
        | Some d => parse_hex (S pos) s' (acc * 16 + d)
        | None => None
        end
  end.

(** Modelled from the spec: version nibble 4 (bits 48-51 from the top)
    and variant 10 (bits 64-65 from the top). *)
Definition is_v4_variant1 (u : Z) : bool :=
  (Z.land (Z.shiftr u 76) 15 =? 4) && (Z.land (Z.shiftr u 62) 3 =? 2).

(** Modelled from the spec: a StableId as a 128-bit unsigned integer;
    anything that is not a v4/variant-1 UUID in canonical lowercase form
    is malformed. *)
Definition uuid_of_string (s : string) : option Z :=
  match parse_hex 0 s 0 with
  | Some u => if is_v4_variant1 u then Some u else None
  | None => None
  end.

(** Modelled from the spec: the [n] lowest hexadecimal digits of [u],
    most significant first. *)
Fixpoint hex_digits (n : nat) (u : Z) (acc : string) : string :=
  match n with
  | O => acc
  | S n' => hex_digits n' (u / 16) (String (hex_digit (u mod 16)) acc)
  end.

(** Modelled from the spec: textual form, lowercase hex with dashes at
    the canonical positions. *)
Definition string_of_uuid (u : Z) : string :=
  let h := hex_digits 32 u EmptyString in
  (substring 0 8 h ++ "-" ++ substring 8 4 h ++ "-" ++ substring 12 4 h ++ "-"
     ++ substring 16 4 h ++ "-" ++ substring 20 12 h)%string.

(** Modelled from the spec: the 122 bits that take part in arithmetic. *)
Definition to122 (u : Z) : Z :=
  Z.lor (Z.shiftl (Z.shiftr u 80) 74)
    (Z.lor (Z.shiftl (Z.land (Z.shiftr u 64) 0xFFF) 62)
       (Z.land u (2 ^ 62 - 1))).

(** Modelled from the spec: puts the version and variant bits back. *)
Definition from122 (n : Z) : Z :=
  Z.lor (Z.shiftl (Z.shiftr n 74) 80)
    (Z.lor (Z.shiftl 4 76)
       (Z.lor (Z.shiftl (Z.land (Z.shiftr n 62) 0xFFF) 64)
          (Z.lor (Z.shiftl 2 62) (Z.land n (2 ^ 62 - 1))))).

(** Modelled from the spec: [add(u, k)]; leaving the 122-bit range is an
    overflow. *)
Definition uuid_add (u k : Z) : option Z :=
  let n := to122 u + k in
  if (0 <=? n) && (n <? 2 ^ 122) then Some (from122 n) else None.

(** Modelled from the spec: [subtract(u1, u2)]. *)
Definition uuid_sub (u1 u2 : Z) : Z := to122 u1 - to122 u2.

(** *** Data model *)

(** Modelled from the spec: a cluster binds GenCounts
    [firstGenCount, firstGenCount + count) of [session] to the final ids
    [baseFinal, baseFinal + count), with [capacity] slots reserved. *)
Record Cluster : Type := mkCluster {
  session : nat;
  firstGenCount : Z;
  capacity : Z;
  count : Z;
  baseFinal : Z
}.

(** Modelled from the spec: the compressor state.  [clusters] is the
    cluster vector in [baseFinal] order (the per-session view is the
    sub-sequence of one session); [sessions] maps a SessionIndex to the
    session base; [lastError] is what [get_error_string] reports. *)
Record CompressorState : Type := mkState {
  localSession : nat;
  nextLocalGenCount : Z;
  lastTakenGenCount : Z;
  clusterCapacityPolicy : Z;
  clusters : list Cluster;
  sessions : list Z;
  nextFinal : Z;
  lastError : option ErrorKind
}.

(** Modelled from the spec: keeps the error a failed call reported. *)
Definition set_lastError (e : option ErrorKind) (s : CompressorState) :=
  mkState (localSession s) (nextLocalGenCount s) (lastTakenGenCount s)
    (clusterCapacityPolicy s) (clusters s) (sessions s) (nextFinal s) e.

(** *** Session registry *)

(** Modelled from the spec: [indexOf], the SessionIndex of a session
    base if it is registered. *)
Fixpoint indexOf (u : Z) (l : list Z) : option nat :=
  match l with
  | [] => None
  | v :: l' => if v =? u then Some O else S <$> indexOf u l'
  end.

(** Modelled from the spec: [internSession] returns the existing index
    or assigns the next free one. *)
Definition internSession (u : Z) (s : CompressorState) : nat * CompressorState :=
  match indexOf u (sessions s) with
  | Some i => (i, s)
  | None =>
      (length (sessions s),
       mkState (localSession s) (nextLocalGenCount s) (lastTakenGenCount s)
         (clusterCapacityPolicy s) (clusters s) (sessions s ++ [u])
         (nextFinal s) (lastError s))
  end.

(** Modelled from the spec: the SessionIndex a token stands for. *)
Definition session_of_token (token : Z) (s : CompressorState) : option nat :=
  if (0 <=? token) && (token <? Z.of_nat (length (sessions s)))
  then Some (Z.to_nat token) else None.

(** *** Cluster table *)

(** Modelled from the spec: search for the rightmost cluster with a
    property; [i] is the index of the head of [cs], [acc] the best match
    so far. *)
Fixpoint lastIndexOf (p : Cluster -> bool) (cs : list Cluster) (i : nat)
    (acc : option nat) : option nat :=
  match cs with
  | [] => acc
  | c :: cs' => lastIndexOf p cs' (S i) (if p c then Some i else acc)
  end.

(** Modelled from the spec: index of the rightmost cluster satisfying
    [p]. *)
Definition rightmostIndex (p : Cluster -> bool) (cs : list Cluster) : option nat :=
  lastIndexOf p cs O None.

(** Modelled from the spec: the rightmost cluster satisfying [p]. *)
Definition rightmost (p : Cluster -> bool) (cs : list Cluster) : option Cluster :=
  i ← rightmostIndex p cs; cs !! i.

(** Modelled from the spec: [findByFinal], bounded by [count]. *)
Definition findByFinal (f : Z) (cs : list Cluster) : option Cluster :=
  c ← rightmost (fun c => baseFinal c <=? f) cs;
  if f <? baseFinal c + count c then Some c else None.

(** Modelled from the spec: [findBySessionGen], bounded by [count]. *)
Definition findBySessionGen (s : nat) (g : Z) (cs : list Cluster) : option Cluster :=
  c ← rightmost (fun c => (session c =? s)%nat && (firstGenCount c <=? g)) cs;
  if g <? firstGenCount c + count c then Some c else None.

(** Modelled from the spec: index of the active (last) cluster of a
    session. *)
Definition activeIndex (s : nat) (cs : list Cluster) : option nat :=
  rightmostIndex (fun c => (session c =? s)%nat) cs.

(** Modelled from the spec: the final id of GenCount [g] in cluster [c],
    [baseFinal + (g - firstGenCount)]. *)
Definition finalOf (c : Cluster) (g : Z) : Z := baseFinal c + (g - firstGenCount c).

(** Modelled from the spec: the session-space form of GenCount [g] of
    the local session (generator, step 2 and 3): final when the active
    cluster has a slot for [g], the LocalId [-g] otherwise.  The literal
    scenario of self-finalisation (three ids finalised into a cluster of
    capacity five, the fourth id comes out as final id 3) fixes that the
    reserved slots count here. *)
Definition sessionSpaceForm (g : Z) (s : CompressorState) : Z :=
  match i ← activeIndex (localSession s) (clusters s); clusters s !! i with
  | Some c =>
      if (firstGenCount c <=? g) && (g <? firstGenCount c + capacity c)
      then finalOf c g else - g
  | None => - g
  end.

(** *** Operations *)

Section Operations.

(** Modelled from the spec: the default [clusterCapacityPolicy] of a
    new compressor and the version tag written first in a blob; the
    design fixes neither value. *)
Context (defaultClusterCapacity : Z) (formatVersion : Z).

(** Modelled from the spec: an operation of the core fails with an
    error kind. *)
Definition raise {A} (k : ErrorKind) : M CompressorState A :=
  throw (WasmError k).

(** Modelled from the spec: a compressor is constructed with a
    SessionId, which becomes session 0 of its registry. *)
Definition new (sessionId : SessionId) : result CompressorState :=
  match uuid_of_string sessionId with
  | Some u => Ok (mkState 0 0 0 defaultClusterCapacity [] [u] 0 None)
  | None => Throw (WasmError InvalidArgument)
  end.

(** Modelled from the spec: [1 <= policy <= 2^20]. *)
Definition set_cluster_capacity (n : Z) : M CompressorState unit :=
  fun s =>
    if (1 <=? n) && (n <=? 2 ^ 20) then
      (Ok tt,
       mkState (localSession s) (nextLocalGenCount s) (lastTakenGenCount s)
         n (clusters s) (sessions s) (nextFinal s) (lastError s))
    else raise InvalidArgument s.

(** Modelled from the spec: the token of a session is its interned
    SessionIndex. *)
Definition get_token (sessionId : SessionId) : M CompressorState Z :=
  fun s =>
    match uuid_of_string sessionId with
    | Some u => let (i, s') := internSession u s in (Ok (Z.of_nat i), s')
    | None => raise InvalidArgument s
    end.

(** Modelled from the spec: finaliser step 3, [active.count += count]. *)
Definition extendCluster (c : Cluster) (n : Z) : Cluster :=
  mkCluster (session c) (firstGenCount c) (capacity c) (count c + n) (baseFinal c).

(** Modelled from the spec: finaliser step 4, a new cluster of capacity
    [max(clusterCapacityPolicy, count)] at [nextFinal]. *)
Definition allocateCluster (ses : nat) (first n : Z) (s : CompressorState)
  : CompressorState :=
  let cap := Z.max (clusterCapacityPolicy s) n in
  mkState (localSession s) (nextLocalGenCount s) (lastTakenGenCount s)
    (clusterCapacityPolicy s)
    (clusters s ++ [mkCluster ses first cap n (nextFinal s)])
    (sessions s) (nextFinal s + cap) (lastError s).

(** Modelled from the spec: the finaliser.  A count that is not a
    positive number is no count at all and is rejected like zero. *)
Definition finalize_range (token first n : Z) : M CompressorState unit :=
  fun s =>
    match session_of_token token s with
    | None => raise InvalidArgument s
    | Some ses =>
        if n <=? 0 then raise ProtocolError s
        else
          match activeIndex ses (clusters s) with
          | None => (Ok tt, allocateCluster ses first n s)
          | Some i =>
              match clusters s !! i with
              | None => raise ProtocolError s
              | Some active =>
                  if negb (firstGenCount active + count active =? first)
                  then raise ProtocolError s
                  else if (count active + n <=? capacity active)
                          && (baseFinal active + capacity active =? nextFinal s)
                  then
                    (Ok tt,
                     mkState (localSession s) (nextLocalGenCount s)
                       (lastTakenGenCount s) (clusterCapacityPolicy s)
                       (<[i := extendCluster active n]> (clusters s))
                       (sessions s) (nextFinal s) (lastError s))
                  else (Ok tt, allocateCluster ses first n s)
              end
          end
    end.

(** Modelled from the spec: the range buffer holds GenCounts
    [lastTakenGenCount + 1 .. nextLocalGenCount]. *)
Definition take_next_range : M CompressorState WasmIdCompressor.InteropRange :=
  fun s =>
    if nextLocalGenCount s <=? lastTakenGenCount s then
      (Ok (WasmIdCompressor.mkInteropRange None), s)
    else
      (Ok (WasmIdCompressor.mkInteropRange
             (Some (WasmIdCompressor.mkInteropIds (lastTakenGenCount s + 1)
                      (nextLocalGenCount s - lastTakenGenCount s)))),
       mkState (localSession s) (nextLocalGenCount s) (nextLocalGenCount s)
         (clusterCapacityPolicy s) (clusters s) (sessions s) (nextFinal s)
         (lastError s)).

(** Modelled from the spec: the generator; GenCounts stop at
    [2^53 - 1]. *)
Definition generate_next_id : M CompressorState Z :=
  fun s =>
    let g := nextLocalGenCount s + 1 in
    if 2 ^ 53 - 1 <? g then raise OverflowError s
    else
      let s' := mkState (localSession s) g (lastTakenGenCount s)
                  (clusterCapacityPolicy s) (clusters s) (sessions s)
                  (nextFinal s) (lastError s) in
      (Ok (sessionSpaceForm g s'), s').

(** Modelled from the spec: [toOpSpace]. *)
Definition normalize_to_op_space (id : Z) : M CompressorState jsnum :=
  fun s =>
    if 0 <=? id then (Ok (JNum id), s)
    else
      match findBySessionGen (localSession s) (- id) (clusters s) with
      | Some c => (Ok (JNum (finalOf c (- id))), s)
      | None => (Ok (JNum id), s)
      end.

(** Modelled from the spec: a failed normalisation; [NaN] goes back to
    the adapter and the error is kept for [get_error_string]. *)
Definition nan (k : ErrorKind) : M CompressorState jsnum :=
  fun s => (Ok JNaN, set_lastError (Some k) s).

(** Modelled from the spec: [toSessionSpace]. *)
Definition normalize_to_session_space (id token : Z) : M CompressorState jsnum :=
  fun s =>
    match session_of_token token s with
    | None => nan InvalidArgument s
    | Some origin =>
        if 0 <=? id then
          match findByFinal id (clusters s) with
          | Some _ => (Ok (JNum id), s)
          | None => nan UnknownId s
          end
        else
          match findBySessionGen origin (- id) (clusters s) with
          | Some c => (Ok (JNum (finalOf c (- id))), s)
          | None =>
              if (origin =? localSession s)%nat then (Ok (JNum id), s)
              else nan UnfinalizedForeignId s
          end
    end.

(** Modelled from the spec: the name of an error kind. *)
Definition kind_name (k : ErrorKind) : string :=
  match k with
  | InvalidArgument => "InvalidArgument"
  | ProtocolError => "ProtocolError"
  | UnknownId => "UnknownId"
  | UnfinalizedForeignId => "UnfinalizedForeignId"
  | VersionMismatch => "VersionMismatch"
  | OverflowError => "OverflowError"
  end.

(** Modelled from the spec: [get_error_string] names the error of the
    last failed normalisation. *)
Definition get_error_string : M CompressorState string :=
  fun s => (Ok (from_option kind_name EmptyString (lastError s)), s).

(** Modelled from the spec: [decompress]. *)
Definition decompress (id : Z) : M CompressorState (option string) :=
  fun s =>
    (Ok (if id <? 0 then
           base ← sessions s !! localSession s;
           string_of_uuid <$> uuid_add base (- id - 1)
         else
           c ← findByFinal id (clusters s);
           base ← sessions s !! session c;
           string_of_uuid <$> uuid_add base (firstGenCount c - 1 + (id - baseFinal c))),
     s).

(** Modelled from the spec: highest GenCount known for a session, the
    generator's counter for the local one, the sum of the finalised
    counts for the others. *)
Definition highestGenCount (ses : nat) (s : CompressorState) : Z :=
  if (ses =? localSession s)%nat then nextLocalGenCount s
  else
    foldr (fun c acc => if (session c =? ses)%nat then count c + acc else acc)
      0 (clusters s).

(** Modelled from the spec: the session with the greatest base not
    above [u]. *)
Fixpoint predecessor (u : Z) (bases : list Z) (i : nat) (best : option (nat * Z))
  : option (nat * Z) :=
  match bases with
  | [] => best
  | b :: bases' =>
      let better :=
        (to122 b <=? to122 u)
        && match best with
           | Some (_, b') => to122 b' <? to122 b
           | None => true
           end in
      predecessor u bases' (S i) (if better then Some (i, b) else best)
  end.

(** Modelled from the spec: [recompress]. *)
Definition recompress (uncompressed : string) : M CompressorState (option Z) :=
  fun s =>
    (Ok (u ← uuid_of_string uncompressed;
         '(ses, base) ← predecessor u (sessions s) O None;
         let g := uuid_sub u base + 1 in
         if highestGenCount ses s <? g then None
         else if (ses =? localSession s)%nat then Some (sessionSpaceForm g s)
         else c ← findBySessionGen ses g (clusters s); Some (finalOf c g)),
     s).

(** *** Serialiser *)

(** Modelled from the spec: [n] little-endian bytes of a number. *)
Fixpoint le (n : nat) (z : Z) : list Z :=
  match n with
  | O => []
  | S n' => (z mod 256) :: le n' (z / 256)
  end.

(** Modelled from the spec: value of little-endian bytes. *)
Fixpoint le_val (bs : list Z) : Z :=
  match bs with
  | [] => 0
  | b :: bs' => b + 256 * le_val bs'
  end.

(** Modelled from the spec: the 16 raw bytes of a UUID, in the order
    of its textual form. *)
Definition uuid_bytes (u : Z) : list Z := rev (le 16 u).

(** Modelled from the spec: one cluster of the serialised format. *)
Definition put_cluster (c : Cluster) : list Z :=
  le 4 (Z.of_nat (session c)) ++ le 8 (firstGenCount c) ++ le 4 (capacity c)
    ++ le 4 (count c) ++ le 8 (baseFinal c).

(** Modelled from the spec: the serialised format, field by field. *)
Definition serialize (withSession : bool) : M CompressorState (list Z) :=
  fun s =>
    (Ok (le 4 formatVersion
         ++ le 4 (clusterCapacityPolicy s)
         ++ [if withSession then 1 else 0]
         ++ le 4 (Z.of_nat (length (sessions s)))
         ++ concat (uuid_bytes <$> sessions s)
         ++ le 4 (Z.of_nat (length (clusters s)))
         ++ concat (put_cluster <$> clusters s)
         ++ le 8 (nextFinal s)
         ++ (if withSession then
               le 4 (Z.of_nat (localSession s))
               ++ le 8 (nextLocalGenCount s)
               ++ le 8 (lastTakenGenCount s)
             else [])),
     s).

(** Modelled from the spec: a reader of the serialised format, the value
    read and the bytes left. *)
Definition reader (A : Type) : Type := list Z -> option (A * list Z).

(** Modelled from the spec: reads an [n]-byte little-endian number. *)
Definition get_le (n : nat) : reader Z :=
  fun bs =>
    if (length bs <? n)%nat then None
    else Some (le_val (take n bs), drop n bs).

(** Modelled from the spec: reads the 16 raw bytes of a session base. *)
Definition get_uuid : reader Z :=
  fun bs =>
    if (length bs <? 16)%nat then None
    else Some (le_val (rev (take 16 bs)), drop 16 bs).

(** Modelled from the spec: reads one cluster. *)
Definition get_cluster : reader Cluster :=
  fun bs =>
    '(ses, bs) ← get_le 4 bs;
    '(first, bs) ← get_le 8 bs;
    '(cap, bs) ← get_le 4 bs;
    '(cnt, bs) ← get_le 4 bs;
    '(base, bs) ← get_le 8 bs;
    Some (mkCluster (Z.to_nat ses) first cap cnt base, bs).

(** Modelled from the spec: reads a field repeated [n] times. *)
Fixpoint get_many {A} (n : nat) (r : reader A) : reader (list A) :=
  fun bs =>
    match n with
    | O => Some ([], bs)
    | S n' =>
        '(a, bs) ← r bs;
        '(l, bs) ← get_many n' r bs;
        Some (a :: l, bs)
    end.

(** Modelled from the spec: the part of a blob every compressor of the
    document shares. *)
Record Shared : Type := mkShared {
  sh_policy : Z;
  sh_sessions : list Z;
  sh_clusters : list Cluster;
  sh_nextFinal : Z
}.

(** Modelled from the spec: reads the fields after the version tag up
    to [nextFinal], with the [hasLocalSession] flag. *)
Definition get_shared : reader (bool * Shared) :=
  fun bs =>
    '(policy, bs) ← get_le 4 bs;
    '(flag, bs) ← get_le 1 bs;
    '(nses, bs) ← get_le 4 bs;
    '(ses, bs) ← get_many (Z.to_nat nses) get_uuid bs;
    '(ncl, bs) ← get_le 4 bs;
    '(cls, bs) ← get_many (Z.to_nat ncl) get_cluster bs;
    '(nf, bs) ← get_le 8 bs;
    if flag =? 0 then Some ((false, mkShared policy ses cls nf), bs)
    else if flag =? 1 then Some ((true, mkShared policy ses cls nf), bs)
    else None.

(** Modelled from the spec: reads the session fields of a blob written
    with its session. *)
Definition get_local : reader (nat * Z * Z) :=
  fun bs =>
    '(idx, bs) ← get_le 4 bs;
    '(next, bs) ← get_le 8 bs;
    '(taken, bs) ← get_le 8 bs;
    Some ((Z.to_nat idx, next, taken), bs).

(** Modelled from the spec: [deserialize].  Only the stated version
    is accepted.  A blob written with its session brings its local
    session along; one written without takes the caller's SessionId,
    which must not collide with a recorded session. *)
Definition deserialize (blob : list Z) (sessionId : SessionId)
  : result CompressorState :=
  match get_le 4 blob with
  | None => Throw (WasmError InvalidArgument)
  | Some (v, bs) =>
      if negb (v =? formatVersion) then Throw (WasmError VersionMismatch)
      else
        match get_shared bs with
        | None => Throw (WasmError InvalidArgument)
        | Some ((true, sh), bs) =>
            match get_local bs with
            | Some ((idx, next, taken), []) =>
                Ok (mkState idx next taken (sh_policy sh) (sh_clusters sh)
                      (sh_sessions sh) (sh_nextFinal sh) None)
            | _ => Throw (WasmError InvalidArgument)
            end
        | Some ((false, sh), bs) =>
            match bs, uuid_of_string sessionId with
            | [], Some u =>
                match indexOf u (sh_sessions sh) with
                | Some _ => Throw (WasmError ProtocolError)
                | None =>
                    Ok (mkState (length (sh_sessions sh)) 0 0 (sh_policy sh)
                          (sh_clusters sh) (sh_sessions sh ++ [u])
                          (sh_nextFinal sh) None)
                end
            | _, _ => Throw (WasmError InvalidArgument)
            end
        end
  end.

(** Modelled from the spec: the core as an implementation of the
    interface of the adapter. *)
Definition api : WasmIdCompressor.Api :=
  {| WasmIdCompressor.t := CompressorState;
     WasmIdCompressor.get_default_cluster_capacity := defaultClusterCapacity;
     WasmIdCompressor.new := new;
     WasmIdCompressor.deserialize := deserialize;
     WasmIdCompressor.set_cluster_capacity := set_cluster_capacity;
     WasmIdCompressor.get_token := get_token;
     WasmIdCompressor.finalize_range := finalize_range;
     WasmIdCompressor.take_next_range := take_next_range;
     WasmIdCompressor.generate_next_id := generate_next_id;
     WasmIdCompressor.normalize_to_op_space := normalize_to_op_space;
     WasmIdCompressor.normalize_to_session_space := normalize_to_session_space;
     WasmIdCompressor.get_error_string := get_error_string;
     WasmIdCompressor.decompress := decompress;
     WasmIdCompressor.recompress := recompress;
     WasmIdCompressor.serialize := serialize |}.

End Operations.

End Core.

(** The entry points of the core are unfolded on demand only. *)
Arguments Core.new : simpl never.
Arguments Core.deserialize : simpl never.
Arguments Core.set_cluster_capacity : simpl never.
Arguments Core.get_token : simpl never.
Arguments Core.finalize_range : simpl never.
Arguments Core.take_next_range : simpl never.
Arguments Core.generate_next_id : simpl never.
Arguments Core.normalize_to_op_space : simpl never.
Arguments Core.normalize_to_session_space : simpl never.
Arguments Core.get_error_string : simpl never.
Arguments Core.decompress : simpl never.
Arguments Core.recompress : simpl never.
Arguments Core.serialize : simpl never.
Arguments Core.uuid_of_string : simpl never.
Arguments Core.string_of_uuid : simpl never.
Arguments Core.uuid_add : simpl never.
Arguments Core.findByFinal : simpl never.
Arguments Core.findBySessionGen : simpl never.
Arguments Core.sessionSpaceForm : simpl never.

(** ** A recording core

    A second implementation of the interface: it does nothing but keep
    the calls it receives, so that what the adapter hands to the core can
    be read off. *)

Module Recorder.

Inductive Call : Type :=
  | set_cluster_capacity (n : Z)
  | get_token (sessionId : SessionId)
  | finalize_range (token first count : Z)
  | take_next_range
  | generate_next_id
  | normalize_to_op_space (id : Z)
  | normalize_to_session_space (id token : Z)
  | get_error_string
  | decompress (id : Z)
  | recompress (uncompressed : string)
  | serialize (withSession : bool).

Definition record {A} (c : Call) (a : A) : M (list Call) A :=
  fun log => (Ok a, log ++ [c]).

Definition api : WasmIdCompressor.Api :=
  {| WasmIdCompressor.t := list Call;
     WasmIdCompressor.get_default_cluster_capacity := 0;
     WasmIdCompressor.new := fun _ => Ok [];
     WasmIdCompressor.deserialize := fun _ _ => Ok [];
     WasmIdCompressor.set_cluster_capacity := fun n => record (set_cluster_capacity n) tt;
     WasmIdCompressor.get_token := fun s => record (get_token s) 0;
     WasmIdCompressor.finalize_range :=
       fun t f n => record (finalize_range t f n) tt;
     WasmIdCompressor.take_next_range :=
       record take_next_range (WasmIdCompressor.mkInteropRange None);
     WasmIdCompressor.generate_next_id := record generate_next_id 0;
     WasmIdCompressor.normalize_to_op_space :=
       fun id => record (normalize_to_op_space id) (JNum id);
     WasmIdCompressor.normalize_to_session_space :=
       fun id t => record (normalize_to_session_space id t) (JNum id);
     WasmIdCompressor.get_error_string := record get_error_string EmptyString;
     WasmIdCompressor.decompress := fun id => record (decompress id) None;
     WasmIdCompressor.recompress := fun s => record (recompress s) None;
     WasmIdCompressor.serialize := fun b => record (serialize b) [] |}.

End Recorder.

(** ** Call sequences

    A client drives a compressor through its public methods; a call that
    throws leaves the object as the method left it, and the client may go
    on calling. *)

Section Driver.

Context (W : WasmIdCompressor.Api) (currentWrittenVersion : string).

Inductive Call : Type :=
  | SetClusterCapacity (clusterCapacity : Z)
  | FinalizeCreationRange (range : IdCreationRange)
  | TakeNextCreationRange
  | GenerateCompressedId (override : option string)
  | NormalizeToOpSpace (id : Z)
  | NormalizeToSessionSpace (id : Z) (originSessionId : SessionId)
  | Decompress (id : Z)
  | TryDecompress (id : Z)
  | Recompress (uncompressed : string)
  | TryRecompress (uncompressed : string)
  | Serialize (withSession : bool).

(** What a call hands back to the client. *)
Inductive Value : Type :=
  | VUndefined
  | VNumber (z : Z)
  | VNumberOpt (z : option Z)
  | VString (s : string)
  | VStringOpt (s : option string)
  | VRange (r : IdCreationRange)
  | VSerialized (s : SerializedIdCompressor).

Definition returning {A} (f : A -> Value) (m : M (IdCompressor W) A)
  : M (IdCompressor W) Value :=
  bind m (fun a => ret (f a)).

Definition perform (call : Call) : M (IdCompressor W) Value :=
  match call with
  | SetClusterCapacity n => returning (fun _ => VUndefined) (setClusterCapacity W n)
  | FinalizeCreationRange r => returning (fun _ => VUndefined) (finalizeCreationRange W r)
  | TakeNextCreationRange => returning VRange (takeNextCreationRange W)
  | GenerateCompressedId o => returning VNumber (generateCompressedId W o)
  | NormalizeToOpSpace id => returning VNumber (normalizeToOpSpace W id)
  | NormalizeToSessionSpace id o => returning VNumber (normalizeToSessionSpace W id o)
  | Decompress id => returning VString (decompress W id)
  | TryDecompress id => returning VStringOpt (tryDecompress W id)
  | Recompress u => returning VNumber (recompress W u)
  | TryRecompress u => returning VNumberOpt (tryRecompress W u)
  | Serialize b => returning VSerialized (serialize W currentWrittenVersion b)
  end.

(** The compressor after a sequence of calls. *)
Fixpoint run (calls : list Call) (c : IdCompressor W) : IdCompressor W :=
  match calls with
  | [] => c
  | call :: calls' => run calls' (snd (perform call c))
  end.

(** What the client sees of a sequence of calls. *)
Fixpoint observe (calls : list Call) (c : IdCompressor W) : list (result Value) :=
  match calls with
  | [] => []
  | call :: calls' =>
      let (r, c') := perform call c in r :: observe calls' c'
  end.

(** Compressors obtained from [create] through method calls. *)
Inductive reachable : IdCompressor W -> Prop :=
  | reachable_create sessionId fresh c :
      create W sessionId fresh = Ok c -> reachable c
  | reachable_perform call c :
      reachable c -> reachable (snd (perform call c)).

(** Calls that feed the finalisation stream and the capacity policy. *)
Definition is_update (call : Call) : bool :=
  match call with
  | SetClusterCapacity _ | FinalizeCreationRange _ => true
  | _ => false
  end.

(** Calls that only read. *)
Definition is_query (call : Call) : bool :=
  match call with
  | NormalizeToOpSpace _ | Decompress _ | TryDecompress _
  | Recompress _ | TryRecompress _ | Serialize _ => true
  | _ => false
  end.

(** [normalizeToSessionSpace(normalizeToOpSpace(x), localSessionId)]. *)
Definition roundTrip (x : Z) : M (IdCompressor W) Z :=
  fun c =>
    bind (normalizeToOpSpace W x)
      (fun y => normalizeToSessionSpace W y (localSessionId W c)) c.

End Driver.

(** ** Concrete sessions for the scenarios *)

Definition sessionA : SessionId := "00000000-0000-4000-8000-000000000000".
Definition sessionB : SessionId := "11111111-2222-4333-a444-555555555555".

(** The core with default capacity 512 and version tag 1, the values
    the scenarios are run with. *)
Definition core : WasmIdCompressor.Api := Core.api 512 1.

(** The value of [currentWrittenVersion] the scenarios are run with. *)
Definition writtenVersion : string := "0.0.1".

(** Runs a program on the compressor [create(sessionA)] yields. *)
Definition onFresh {A} (m : M (IdCompressor core) A) : option (result A * IdCompressor core) :=
  match create core (Some sessionA) sessionB with
  | Ok c => Some (m c)
  | Throw _ => None
  end.

Section Scenarios.

Local Open Scope js_scope.

(** Self-finalisation: three ids, the taken range fed back with
    capacity 5, then one more id. *)
Definition selfFinalization : M (IdCompressor core) (IdCreationRange * result unit * Z) :=
  generateCompressedId core None ;;;
  generateCompressedId core None ;;;
  generateCompressedId core None ;;;
  range <- takeNextCreationRange core ;;
  setClusterCapacity core 5 ;;;
  fun c =>
    let (outcome, c') := finalizeCreationRange core range c in
    (next <- generateCompressedId core None ;;
     ret (range, outcome, next)) c'.



(** Two sessions, interleaved finalisation, run on the core: policy 5,
    ranges A(1..2), B(1..3), B(4..4), A(3..4). *)
Definition interleaved : M Core.CompressorState unit :=
  Core.set_cluster_capacity 5 ;;;
  a <- Core.get_token sessionA ;;
  b <- Core.get_token sessionB ;;
  Core.finalize_range a 1 2 ;;;
  Core.finalize_range b 1 3 ;;;
  Core.finalize_range b 4 1 ;;;
  Core.finalize_range a 3 2.

(** The compressor [create(sessionA)] yields. *)
Definition freshA : IdCompressor core :=
  mkIdCompressor core
    (Core.mkState 0 0 0 512 [] [0x00000000000040008000000000000000] 0 None)
    sessionA ∅.

(** [freshA] after one id was minted. *)
Definition mintedA : IdCompressor core :=
  snd (generateCompressedId core None freshA).

(** What [serialize(true)] of [mintedA] returns: version tag 1, policy
    512, the session flag, one session base, no cluster, [nextFinal] 0,
    then the local session index 0, one id generated, none taken. *)
Definition blobA : SerializedIdCompressor :=
  mkSerialized
    ([1; 0; 0; 0] ++ [0; 2; 0; 0] ++ [1] ++ [1; 0; 0; 0]
     ++ [0; 0; 0; 0; 0; 0; 64; 0; 128; 0; 0; 0; 0; 0; 0; 0]
     ++ [0; 0; 0; 0] ++ [0; 0; 0; 0; 0; 0; 0; 0]
     ++ [0; 0; 0; 0] ++ [1; 0; 0; 0; 0; 0; 0; 0] ++ [0; 0; 0; 0; 0; 0; 0; 0])
    writtenVersion.

(** What resuming [blobA] yields when the generator produced
    [generated]. *)
Definition resumedA (generated : StableId) : IdCompressor core :=
  mkIdCompressor core
    (Core.mkState 0 1 0 512 [] [0x00000000000040008000000000000000] 0 None)
    generated ∅.

(** [freshA] after one id was minted, taken and finalised. *)
Definition finalizedA : IdCompressor core :=
  run core writtenVersion
    [GenerateCompressedId None; TakeNextCreationRange;
     FinalizeCreationRange (mkRange sessionA (Some (mkIds 1 1 None)))]
    freshA.

End Scenarios.

(** ** Agreement between the adapter and the core *)

Section Agreement.

Context (d v : Z).

(** In core state [s] the session id [sid] is interned under [token]. *)
Definition knows (s : Core.CompressorState) (sid : SessionId) (token : Z) : Prop :=
  exists u i,
    Core.uuid_of_string sid = Some u
    /\ Core.indexOf u (Core.sessions s) = Some i
    /\ token = Z.of_nat i.

(** The adapter and its core agree: [localSessionId] names the local
    session of the core, every cached token is the one the core has
    for that session, and no more ids were taken than generated. *)
Definition consistent (c : IdCompressor (Core.api d v)) : Prop :=
  let s := wasmCompressor _ c in
  knows s (localSessionId _ c) (Z.of_nat (Core.localSession s))
  /\ (forall sid token, sessionTokens _ c !! sid = Some token -> knows s sid token)
  /\ 0 <= Core.lastTakenGenCount s <= Core.nextLocalGenCount s.

(** The core only ever appends to its registry. *)
Definition extends (s s' : Core.CompressorState) : Prop :=
  Core.localSession s' = Core.localSession s
  /\ (exists more, Core.sessions s' = Core.sessions s ++ more)
  /\ (0 <= Core.lastTakenGenCount s <= Core.nextLocalGenCount s ->
      0 <= Core.lastTakenGenCount s' <= Core.nextLocalGenCount s').

(** A method keeps adapter and core in agreement. *)
Definition preserves {A} (m : M (IdCompressor (Core.api d v)) A) : Prop :=
  forall c, consistent c -> consistent (snd (m c)).

End Agreement.

(** A session-space id whose form no finalisation can have changed: a
    final id that a cluster covers, or a local id whose GenCount no
    cluster of the local session covers. *)
Definition settled (x : Z) (s : Core.CompressorState) : bool :=
  if 0 <=? x then
    match Core.findByFinal x (Core.clusters s) with Some _ => true | None => false end
  else
    match Core.findBySessionGen (Core.localSession s) (- x) (Core.clusters s) with
    | Some _ => false
    | None => true
    end.

(** ** The token cache and further scenarios *)

Section CacheFrame.

Context (W : WasmIdCompressor.Api).

(** A method leaves [localSessionId] alone and changes the token cache
    at most by adding entries for sessions in [l] that had none. *)
Definition frame {A} (l : list string) (m : M (IdCompressor W) A) : Prop :=
  forall c,
    localSessionId W (snd (m c)) = localSessionId W c
    /\ forall sid,
        sessionTokens W (snd (m c)) !! sid <> sessionTokens W c !! sid ->
        sid ∈ l /\ sessionTokens W c !! sid = None.

End CacheFrame.

(** The sessions a call names: the only ones whose token it may fetch. *)
Definition sessions_named (call : Call) : list string :=
  match call with
  | FinalizeCreationRange range => [sessionId range]
  | NormalizeToSessionSpace _ originSessionId => [originSessionId]
  | _ => []
  end.

(** [freshA] after the token of session B was fetched: the core has
    interned B as session 1 and the adapter has cached the token. *)
Definition toldB : IdCompressor core :=
  mkIdCompressor core
    (Core.mkState 0 0 0 512 []
       [0x00000000000040008000000000000000; 0x1111111122224333a444555555555555]
       0 None)
    sessionA {[sessionB := 1]}.

(** What [serialize(false)] of [mintedA] returns: as [blobA], with the
    session flag off and without the three local fields. *)
Definition blobShared : SerializedIdCompressor :=
  mkSerialized
    ([1; 0; 0; 0] ++ [0; 2; 0; 0] ++ [0] ++ [1; 0; 0; 0]
     ++ [0; 0; 0; 0; 0; 0; 64; 0; 128; 0; 0; 0; 0; 0; 0; 0]
     ++ [0; 0; 0; 0] ++ [0; 0; 0; 0; 0; 0; 0; 0])
    writtenVersion.

(** What resuming [blobShared] as session B yields. *)
Definition joinedB : IdCompressor core :=
  mkIdCompressor core
    (Core.mkState 1 0 0 512 []
       [0x00000000000040008000000000000000; 0x1111111122224333a444555555555555]
       0 None)
    sessionB ∅.

(** A string that is no UUID. *)
Definition malformed : SessionId := "not-a-session-id".

(** Unfolding of the interface fields at an implementation, and of the
    methods of the adapter down to the calls into the core. *)
Ltac api_fields :=
  cbn [Core.api Recorder.api WasmIdCompressor.t
       WasmIdCompressor.get_default_cluster_capacity
       WasmIdCompressor.new WasmIdCompressor.deserialize
       WasmIdCompressor.set_cluster_capacity WasmIdCompressor.get_token
       WasmIdCompressor.finalize_range WasmIdCompressor.take_next_range
       WasmIdCompressor.generate_next_id WasmIdCompressor.normalize_to_op_space
       WasmIdCompressor.normalize_to_session_space WasmIdCompressor.get_error_string
       WasmIdCompressor.decompress WasmIdCompressor.recompress
       WasmIdCompressor.serialize
       wasmCompressor localSessionId sessionTokens fst snd] in *.

Ltac methods :=
  unfold returning, setClusterCapacity, finalizeCreationRange, takeNextCreationRange,
    generateCompressedId, normalizeToOpSpace, normalizeToSessionSpace, decompress,
    tryDecompress, recompress, tryRecompress, serialize, idOrError, nullish, fail,
    assert, bind, wasm, ret, throw in *;
  api_fields.


(** * Properties of the adapter, for every implementation of the core *)

Section AdapterFacts.

Context (W : WasmIdCompressor.Api).

Lemma wasm_fields {A} (op : M (WasmIdCompressor.t W) A) (c : IdCompressor W) :
  localSessionId W (snd (wasm W op c)) = localSessionId W c
  /\ sessionTokens W (snd (wasm W op c)) = sessionTokens W c
  /\ wasmCompressor W (snd (wasm W op c)) = snd (op (wasmCompressor W c)).
Proof. unfold wasm. destruct (op (wasmCompressor W c)); simpl; auto. Qed.

Lemma finalizeCreationRange_no_ids (s : SessionId) (c : IdCompressor W) :
  finalizeCreationRange W (mkRange s None) c = (Ok tt, c).
Proof. reflexivity. Qed.

Lemma finalizeCreationRange_overrides (s : SessionId) (f l : Z)
    (ov : list (Z * string)) (c : IdCompressor W) :
  finalizeCreationRange W (mkRange s (Some (mkIds f l (Some ov)))) c
  = (Throw (AssertionError (Msg "Overrides not yet supported.")), c).
Proof. reflexivity. Qed.

End AdapterFacts.

(** C6, as amended.  A range that carries no ids is not rejected:
    [finalizeCreationRange] returns normally and leaves the compressor,
    the native core included, exactly as it was, whatever the core is. *)
Theorem finalizeCreationRange_empty_range_is_noop
    (W : WasmIdCompressor.Api) (s : SessionId) (c : IdCompressor W) :
  finalizeCreationRange W (mkRange s None) c = (Ok tt, c).
Proof. apply finalizeCreationRange_no_ids. Qed.

(** C6, counterexample.  On the compressor [create(sessionA)] yields, the
    call with the range [{ sessionId: sessionA }] does not fail: it
    returns normally, and no error of any kind is thrown. *)
Lemma finalizeCreationRange_empty_range_returns :
  create core (Some sessionA) sessionB = Ok freshA
  /\ finalizeCreationRange core (mkRange sessionA None) freshA = (Ok tt, freshA)
  /\ fst (finalizeCreationRange core (mkRange sessionA None) freshA)
     <> Throw (WasmError ProtocolError).
Proof.
  split; [reflexivity|]. split; [reflexivity|discriminate].
Qed.

(** C7.  Failures reach the caller as exceptions.  [decompress] returns
    exactly the StableId [tryDecompress] returns and throws when
    [tryDecompress] returns nothing; [recompress] and [tryRecompress]
    likewise; and when the core answers a normalisation with [NaN], the
    adapter throws instead of returning a number, while an ordinary
    number is passed on unchanged. *)
Theorem failures_are_thrown (W : WasmIdCompressor.Api) (c : IdCompressor W) :
  (forall id,
      match tryDecompress W id c with
      | (Ok (Some s), c') => decompress W id c = (Ok s, c')
      | (Ok None, c') =>
          decompress W id c = (Throw (FailError "Could not decompress."), c')
      | (Throw e, c') => decompress W id c = (Throw e, c')
      end)
  /\ (forall u,
      match tryRecompress W u c with
      | (Ok (Some z), c') => recompress W u c = (Ok z, c')
      | (Ok None, c') =>
          recompress W u c = (Throw (FailError "Could not recompress."), c')
      | (Throw e, c') => recompress W u c = (Throw e, c')
      end)
  /\ (forall id,
      match wasm W (WasmIdCompressor.normalize_to_op_space W id) c with
      | (Ok JNaN, c') => exists e c'', normalizeToOpSpace W id c = (Throw e, c'')
      | (Ok (JNum z), c') => normalizeToOpSpace W id c = (Ok z, c')
      | (Throw e, c') => normalizeToOpSpace W id c = (Throw e, c')
      end)
  /\ (forall id origin,
      match getOrCreateSessionToken W origin c with
      | (Ok token, c1) =>
          match wasm W (WasmIdCompressor.normalize_to_session_space W id token) c1 with
          | (Ok JNaN, c') =>
              exists e c'', normalizeToSessionSpace W id origin c = (Throw e, c'')
          | (Ok (JNum z), c') => normalizeToSessionSpace W id origin c = (Ok z, c')
          | (Throw e, c') => normalizeToSessionSpace W id origin c = (Throw e, c')
          end
      | (Throw e, c1) => normalizeToSessionSpace W id origin c = (Throw e, c1)
      end).
Proof.
  repeat split.
  - intros id. unfold decompress, bind.
    destruct (tryDecompress W id c) as [[[s|]|e] c']; reflexivity.
  - intros u. unfold recompress, bind.
    destruct (tryRecompress W u c) as [[[z|]|e] c']; reflexivity.
  - intros id. unfold normalizeToOpSpace, bind.
    destruct (wasm W (WasmIdCompressor.normalize_to_op_space W id) c)
      as [[[z|]|e] c']; try reflexivity.
    unfold idOrError, bind.
    destruct (wasm W (WasmIdCompressor.get_error_string W) c') as [[m|e] c''];
      unfold throw; eauto.
  - intros id origin. unfold normalizeToSessionSpace, bind.
    destruct (getOrCreateSessionToken W origin c) as [[token|e] c1]; [|reflexivity].
    destruct (wasm W (WasmIdCompressor.normalize_to_session_space W id token) c1)
      as [[[z|]|e] c']; try reflexivity.
    unfold idOrError, bind.
    destruct (wasm W (WasmIdCompressor.get_error_string W) c') as [[m|e] c''];
      unfold throw; eauto.
Qed.

(** C8.  Overrides are not supported.  The [override] argument of
    [generateCompressedId] never changes what the call returns or does,
    and [finalizeCreationRange] throws, before it touches the core, for
    every range whose ids carry an [overrides] member. *)
Theorem overrides_are_unsupported (W : WasmIdCompressor.Api) (c : IdCompressor W) :
  (forall override override',
      generateCompressedId W override c = generateCompressedId W override' c)
  /\ (forall s f l ov,
      finalizeCreationRange W (mkRange s (Some (mkIds f l (Some ov)))) c
      = (Throw (AssertionError (Msg "Overrides not yet supported.")), c)).
Proof.
  split.
  - reflexivity.
  - intros. apply finalizeCreationRange_overrides.
Qed.

(** C10.  Resuming without a session argument gives the compressor the
    id the random generator produced as its [localSessionId], whatever
    the blob holds: two different blobs resumed with the same generated
    id end up with the same [localSessionId]. *)
Theorem deserialize_takes_generated_session_id
    (W : WasmIdCompressor.Api) (currentWrittenVersion : string)
    (serialized : SerializedIdCompressor) (generated : StableId)
    (c : IdCompressor W) :
  deserialize W currentWrittenVersion serialized None generated = Ok c ->
  localSessionId W c = generated
  /\ forall serialized' c',
      deserialize W currentWrittenVersion serialized' None generated = Ok c' ->
      localSessionId W c' = localSessionId W c.
Proof.
  assert (Hone : forall s d, deserialize W currentWrittenVersion s None generated = Ok d ->
                             localSessionId W d = generated).
  { intros s d. unfold deserialize.
    destruct (bool_decide _); [|discriminate].
    destruct (WasmIdCompressor.deserialize W (ser_bytes s) generated);
      [|discriminate].
    intros [= <-]. reflexivity. }
  intros H. split; [eauto|].
  intros s' c' H'. rewrite (Hone _ _ H), (Hone _ _ H'). reflexivity.
Qed.

(** The finaliser on two sessions: the last cluster, of session B, is
    extended in place to four ids; session A, whose cluster at 0 is
    followed by another one, gets a new cluster at 10; the next final id
    is 15. *)
Example core_interleaved_finalization :
  (fun r => (fst r, Core.clusters (snd r), Core.nextFinal (snd r)))
    (interleaved (wasmCompressor core freshA))
  = (Ok tt,
     [Core.mkCluster 0 1 5 2 0; Core.mkCluster 1 1 5 4 5; Core.mkCluster 0 3 5 2 10],
     15).
Proof. vm_compute. reflexivity. Qed.

(** C1, evaluated on the code.  For a range [{firstGenCount: f,
    lastGenCount: l}] the adapter hands [f - l + 1] to [finalize_range],
    not the number [l - f + 1] of GenCounts in the range: the recording
    core receives [finalize_range(token, f, f - l + 1)] as its last call.
    In the self-finalisation scenario the range [{1, 3}] therefore
    reaches the core with count [-1], the finalisation throws, and the
    next [generateCompressedId] returns the local id [-4] instead of the
    final id 3. *)
Theorem finalizeCreationRange_hands_over_first_minus_last :
  (forall (s : SessionId) (f l : Z) (c : IdCompressor Recorder.api),
      exists token c',
        finalizeCreationRange Recorder.api (mkRange s (Some (mkIds f l None))) c
        = (Ok tt, c')
        /\ last (wasmCompressor Recorder.api c')
           = Some (Recorder.finalize_range token f (f - l + 1)))
  /\ fst <$> onFresh selfFinalization
     = Some (Ok (mkRange sessionA (Some (mkIds 1 3 None)),
                 Throw (WasmError ProtocolError), -4)).
Proof.
  split.
  - intros s f l c.
    unfold finalizeCreationRange, getIds, bind, assert, ret; simpl.
    unfold getOrCreateSessionToken, bind, wasm; simpl.
    destruct (sessionTokens Recorder.api c !! s) as [token|]; simpl;
      do 2 eexists; (split; [reflexivity|]); simpl; apply last_snoc.
  - vm_compute. reflexivity.
Qed.

(** C9.  [setClusterCapacity(n)] succeeds and installs [n] as the
    capacity policy for every [1 <= n <= 2^20]; for every other [n] it
    throws the assertion [0x481] (not positive) or [0x482] (above the
    maximal cluster size) and leaves the compressor unchanged. *)
Theorem setClusterCapacity_range (d v n : Z) (c : IdCompressor (Core.api d v)) :
  if (1 <=? n) && (n <=? 2 ^ 20) then
    exists c',
      setClusterCapacity (Core.api d v) n c = (Ok tt, c')
      /\ Core.clusterCapacityPolicy (wasmCompressor _ c') = n
  else
    setClusterCapacity (Core.api d v) n c
    = (Throw (AssertionError (Code (if 0 <? n then 0x482 else 0x481))), c).
Proof.
  unfold setClusterCapacity, bind, assert, ret, throw, maxClusterSize, wasm.
  simpl WasmIdCompressor.set_cluster_capacity. unfold Core.set_cluster_capacity.
  destruct (Z.leb_spec 1 n) as [H1|H1]; destruct (Z.leb_spec n (2 ^ 20)) as [H2|H2];
    destruct (Z.ltb_spec 0 n) as [H3|H3]; simpl; try lia; eauto.
Qed.

(** C5.  [takeNextCreationRange] returns a range tagged with the
    compressor's [localSessionId].  With [pending] the number of local
    ids generated and not yet taken, the range has no ids exactly when
    nothing is pending; otherwise its ids start right after the last
    taken GenCount and satisfy [lastGenCount = firstGenCount + pending - 1]
    with [pending >= 1].  The call drains the buffer: the next call
    returns a range without ids. *)
Theorem takeNextCreationRange_drains (d v : Z) (c : IdCompressor (Core.api d v)) :
  let s := wasmCompressor _ c in
  let pending := Core.nextLocalGenCount s - Core.lastTakenGenCount s in
  exists range c',
    takeNextCreationRange (Core.api d v) c = (Ok range, c')
    /\ sessionId range = localSessionId _ c
    /\ match ids range with
       | None => pending <= 0
       | Some i =>
           1 <= pending
           /\ firstGenCount i = Core.lastTakenGenCount s + 1
           /\ lastGenCount i = firstGenCount i + pending - 1
       end
    /\ exists c'',
        takeNextCreationRange (Core.api d v) c'
        = (Ok (mkRange (localSessionId _ c) None), c'').
Proof.
  destruct c as [s l t]. simpl.
  unfold takeNextCreationRange, bind, wasm; simpl.
  unfold Core.take_next_range.
  destruct (Z.leb_spec (Core.nextLocalGenCount s) (Core.lastTakenGenCount s)) as [H|H];
    simpl.
  - do 2 eexists. split; [reflexivity|]. split; [reflexivity|]. simpl.
    split; [lia|].
    destruct (Z.leb_spec (Core.nextLocalGenCount s) (Core.lastTakenGenCount s));
      [|lia]. simpl. eauto.
  - do 2 eexists. split; [reflexivity|]. split; [reflexivity|]. simpl.
    split; [lia|]. rewrite Z.leb_refl. simpl. eauto.
Qed.

(** Witness for C10: [blobA], written by session A, resumed while the
    generator produces [sessionB]. *)
Lemma deserialize_takes_generated_session_id_witness :
  deserialize core writtenVersion blobA None sessionB = Ok (resumedA sessionB)
  /\ localSessionId core (resumedA sessionB) = sessionB
  /\ forall serialized' c',
      deserialize core writtenVersion serialized' None sessionB = Ok c' ->
      localSessionId core c' = localSessionId core (resumedA sessionB).
Proof.
  split; [reflexivity|].
  apply (deserialize_takes_generated_session_id core writtenVersion blobA sessionB).
  reflexivity.
Defined.

(** * Properties that rest on the native core *)

Section CoreFacts.

Context (d v : Z) (ver : string).

Local Abbreviation W := (Core.api d v).

(** Reading calls leave the compressor as it is. *)
Lemma query_keeps_state (call : Call) (c : IdCompressor W) :
  is_query call = true -> snd (perform W ver call c) = c.
Proof.
  destruct c as [s l t].
  destruct call; try discriminate; intros _; cbn [perform]; methods.
  - unfold Core.normalize_to_op_space.
    destruct (0 <=? id); [reflexivity|].
    destruct (Core.findBySessionGen _ _ _); reflexivity.
  - unfold Core.decompress.
    match goal with |- context [match ?o with Some _ => _ | None => _ end] =>
      destruct o end; reflexivity.
  - reflexivity.
  - unfold Core.recompress.
    match goal with |- context [match ?o with Some _ => _ | None => _ end] =>
      destruct o end; reflexivity.
  - reflexivity.
  - reflexivity.
Qed.

(** Only the updates among updates and queries matter for the state. *)
Lemma run_only_updates (calls : list Call) (c : IdCompressor W) :
  forallb (fun call => is_update call || is_query call) calls = true ->
  run W ver calls c = run W ver (List.filter is_update calls) c.
Proof.
  revert c. induction calls as [|call calls IH]; intros c; simpl; [reflexivity|].
  intros H. apply andb_prop in H as [Hc Hcs].
  destruct (is_update call) eqn:Hu; simpl.
  - apply IH, Hcs.
  - simpl in Hc. rewrite (query_keeps_state call c Hc). apply IH, Hcs.
Qed.

Lemma create_ignores_generator (s fresh fresh' : SessionId) :
  create W (Some s) fresh = create W (Some s) fresh'.
Proof. reflexivity. Qed.

End CoreFacts.

(** On the modelled core, what [serialize(true)] returns after a run of
    updates ([setClusterCapacity], [finalizeCreationRange]) and reading
    calls ([normalizeToOpSpace], [decompress], [recompress], their [try]
    variants and [serialize]) depends on the updates alone. *)
Theorem same_updates_same_serialization
    (d v : Z) (ver : string) (s fresh1 fresh2 : SessionId)
    (c1 c2 : IdCompressor (Core.api d v)) (calls1 calls2 : list Call) :
  create (Core.api d v) (Some s) fresh1 = Ok c1 ->
  create (Core.api d v) (Some s) fresh2 = Ok c2 ->
  forallb (fun call => is_update call || is_query call) calls1 = true ->
  forallb (fun call => is_update call || is_query call) calls2 = true ->
  List.filter is_update calls1 = List.filter is_update calls2 ->
  fst (serialize (Core.api d v) ver true (run (Core.api d v) ver calls1 c1))
  = fst (serialize (Core.api d v) ver true (run (Core.api d v) ver calls2 c2)).
Proof.
  intros H1 H2 Hq1 Hq2 Hsame.
  rewrite (create_ignores_generator d v s fresh1 fresh2) in H1.
  assert (c1 = c2) as -> by congruence.
  rewrite (run_only_updates d v ver calls1 c2 Hq1).
  rewrite (run_only_updates d v ver calls2 c2 Hq2).
  rewrite Hsame. reflexivity.
Qed.

(** An instance: the same two updates, read around differently. *)
Lemma same_updates_same_serialization_witness :
  let r := mkRange sessionB (Some (mkIds 1 1 None)) in
  let calls1 := [SetClusterCapacity 5; Decompress 0; FinalizeCreationRange r] in
  let calls2 := [Serialize true; SetClusterCapacity 5; FinalizeCreationRange r;
                 NormalizeToOpSpace 3] in
  create core (Some sessionA) sessionA = Ok freshA
  /\ create core (Some sessionA) sessionB = Ok freshA
  /\ forallb (fun call => is_update call || is_query call) calls1 = true
  /\ forallb (fun call => is_update call || is_query call) calls2 = true
  /\ List.filter is_update calls1 = List.filter is_update calls2
  /\ fst (serialize core writtenVersion true (run core writtenVersion calls1 freshA))
     = fst (serialize core writtenVersion true (run core writtenVersion calls2 freshA)).
Proof.
  intros r calls1 calls2.
  assert (Hc1 : create core (Some sessionA) sessionA = Ok freshA)
    by reflexivity.
  assert (Hc2 : create core (Some sessionA) sessionB = Ok freshA)
    by reflexivity.
  assert (Hq1 : forallb (fun call => is_update call || is_query call) calls1 = true)
    by reflexivity.
  assert (Hq2 : forallb (fun call => is_update call || is_query call) calls2 = true)
    by reflexivity.
  assert (Hf : List.filter is_update calls1 = List.filter is_update calls2)
    by reflexivity.
  repeat (split; [assumption|]).
  exact (same_updates_same_serialization 512 1 writtenVersion sessionA sessionA sessionB
           freshA freshA calls1 calls2 Hc1 Hc2 Hq1 Hq2 Hf).
Defined.

(** ** Agreement is an invariant *)

Section AgreementFacts.

Context (d v : Z) (ver : string).

Local Abbreviation W := (Core.api d v).

Lemma indexOf_app (u : Z) (l more : list Z) (i : nat) :
  Core.indexOf u l = Some i -> Core.indexOf u (l ++ more) = Some i.
Proof.
  revert i. induction l as [|x l IH]; intros i; simpl; [discriminate|].
  destruct (x =? u); [auto|].
  destruct (Core.indexOf u l) as [j|]; simpl; [|discriminate].
  intros [= <-]. rewrite (IH j eq_refl). reflexivity.
Qed.

Lemma indexOf_lt (u : Z) (l : list Z) (i : nat) :
  Core.indexOf u l = Some i -> (i < length l)%nat.
Proof.
  revert i. induction l as [|x l IH]; intros i; simpl; [discriminate|].
  destruct (x =? u); [intros [= <-]; lia|].
  destruct (Core.indexOf u l) as [j|]; simpl; [|discriminate].
  intros [= <-]. specialize (IH j eq_refl). lia.
Qed.

Lemma indexOf_fresh (u : Z) (l : list Z) :
  Core.indexOf u l = None -> Core.indexOf u (l ++ [u]) = Some (length l).
Proof.
  induction l as [|x l IH]; simpl.
  - rewrite Z.eqb_refl. reflexivity.
  - destruct (x =? u); [discriminate|].
    destruct (Core.indexOf u l); simpl; [discriminate|].
    intros _. rewrite IH by reflexivity. reflexivity.
Qed.

Lemma extends_refl (s : Core.CompressorState) : extends s s.
Proof. split; [reflexivity|]. split; [exists []; symmetry; apply app_nil_r|auto]. Qed.

Lemma knows_extends (s s' : Core.CompressorState) (sid : SessionId) (token : Z) :
  extends s s' -> knows s sid token -> knows s' sid token.
Proof.
  intros (_ & [more Hm] & _) (u & i & Hu & Hi & ->).
  exists u, i. rewrite Hm. auto using indexOf_app.
Qed.

(** Every entry point of the core extends the state it is called on. *)
Lemma set_cluster_capacity_extends n s :
  extends s (snd (Core.set_cluster_capacity n s)).
Proof.
  unfold Core.set_cluster_capacity.
  destruct (_ && _); [|apply extends_refl].
  split; [reflexivity|]. split; [exists []; symmetry; apply app_nil_r|auto].
Qed.

Lemma get_token_extends sid s :
  extends s (snd (Core.get_token sid s)).
Proof.
  unfold Core.get_token, Core.internSession.
  destruct (Core.uuid_of_string sid) as [u|]; [|apply extends_refl].
  destruct (Core.indexOf u (Core.sessions s)); [apply extends_refl|].
  split; [reflexivity|]. split; [eexists; reflexivity|auto].
Qed.

Lemma finalize_range_extends token first n s :
  extends s (snd (Core.finalize_range token first n s)).
Proof.
  unfold Core.finalize_range.
  destruct (Core.session_of_token token s) as [ses|]; [|apply extends_refl].
  destruct (n <=? 0); [apply extends_refl|].
  assert (Hal : extends s (Core.allocateCluster ses first n s)).
  { split; [reflexivity|]. split; [exists []; symmetry; apply app_nil_r|auto]. }
  destruct (Core.activeIndex ses (Core.clusters s)) as [i|]; [|exact Hal].
  destruct (Core.clusters s !! i) as [active|]; [|apply extends_refl].
  destruct (negb _); [apply extends_refl|].
  destruct (_ && _); [|exact Hal].
  split; [reflexivity|]. split; [exists []; symmetry; apply app_nil_r|auto].
Qed.

Lemma take_next_range_extends s :
  extends s (snd (Core.take_next_range s)).
Proof.
  unfold Core.take_next_range.
  destruct (Z.leb_spec (Core.nextLocalGenCount s) (Core.lastTakenGenCount s));
    [apply extends_refl|].
  split; [reflexivity|]. split; [exists []; symmetry; apply app_nil_r|simpl; lia].
Qed.

Lemma generate_next_id_extends s :
  extends s (snd (Core.generate_next_id s)).
Proof.
  unfold Core.generate_next_id.
  destruct (_ <? _); [apply extends_refl|].
  split; [reflexivity|]. split; [exists []; symmetry; apply app_nil_r|simpl; lia].
Qed.

Lemma normalize_to_op_space_extends id s :
  extends s (snd (Core.normalize_to_op_space id s)).
Proof.
  unfold Core.normalize_to_op_space.
  destruct (0 <=? id); [apply extends_refl|].
  destruct (Core.findBySessionGen _ _ _); apply extends_refl.
Qed.

Lemma nan_extends k s : extends s (snd (Core.nan k s)).
Proof.
  split; [reflexivity|]. split; [exists []; symmetry; apply app_nil_r|auto].
Qed.

Lemma normalize_to_session_space_extends id token s :
  extends s (snd (Core.normalize_to_session_space id token s)).
Proof.
  unfold Core.normalize_to_session_space.
  destruct (Core.session_of_token token s) as [origin|]; [|apply nan_extends].
  destruct (0 <=? id).
  - destruct (Core.findByFinal _ _); [apply extends_refl|apply nan_extends].
  - destruct (Core.findBySessionGen _ _ _); [apply extends_refl|].
    destruct (_ =? _)%nat; [apply extends_refl|apply nan_extends].
Qed.

(** Rules for building methods. *)
Lemma wasm_preserves {A} (op : M Core.CompressorState A) :
  (forall s, extends s (snd (op s))) -> preserves d v (wasm W op).
Proof.
  intros Hext c (Hl & Ht & Hn).
  destruct (wasm_fields W op c) as (El & Et & Ew).
  specialize (Hext (wasmCompressor W c)).
  unfold consistent. cbv zeta. rewrite El, Et, Ew.
  cbn [WasmIdCompressor.t Core.api] in *.
  pose proof Hext as (Hloc & _ & Hinv).
  split; [|split].
  - rewrite Hloc. eapply knows_extends; eauto.
  - intros sid token H. eapply knows_extends; eauto.
  - apply Hinv, Hn.
Qed.

Lemma ret_preserves {A} (a : A) : preserves d v (ret a).
Proof. intros c H. exact H. Qed.

Lemma throw_preserves {A} (e : JsError) : preserves d v (@throw _ A e).
Proof. intros c H. exact H. Qed.

Lemma assert_preserves (b : bool) (tag : AssertTag) : preserves d v (assert b tag).
Proof. destruct b; [apply ret_preserves|apply throw_preserves]. Qed.

Lemma bind_preserves {A B} (m : M (IdCompressor W) A) (k : A -> M (IdCompressor W) B) :
  preserves d v m -> (forall a, preserves d v (k a)) -> preserves d v (bind m k).
Proof.
  intros Hm Hk c Hc. specialize (Hm c Hc). unfold bind.
  destruct (m c) as [[a|e] c']; simpl in *; [apply Hk, Hm|exact Hm].
Qed.

Lemma nullish_preserves {A} (o : option A) (m : M (IdCompressor W) A) :
  preserves d v m -> preserves d v (nullish o m).
Proof. destruct o; [intros _; apply ret_preserves|auto]. Qed.

(** The token handed out for a session is the one the core has. *)
Lemma getOrCreateSessionToken_knows (sid : SessionId) (c : IdCompressor W) :
  consistent d v c ->
  consistent d v (snd (getOrCreateSessionToken W sid c))
  /\ forall token, fst (getOrCreateSessionToken W sid c) = Ok token ->
       knows (wasmCompressor W (snd (getOrCreateSessionToken W sid c))) sid token.
Proof.
  intros Hc. pose proof Hc as (Hl & Ht & Hn).
  destruct c as [s l t]. api_fields.
  unfold getOrCreateSessionToken. api_fields.
  destruct (t !! sid) as [token|] eqn:Et.
  - api_fields. split; [exact Hc|]. intros token' [= <-]. apply Ht, Et.
  - methods. unfold Core.get_token, Core.internSession.
    destruct (Core.uuid_of_string sid) as [u|] eqn:Eu; api_fields;
      [|split; [exact Hc|discriminate]].
    destruct (Core.indexOf u (Core.sessions s)) as [i|] eqn:Ei; api_fields.
    + assert (Hk : knows s sid (Z.of_nat i)) by (exists u, i; auto).
      split; [|intros token [= <-]; exact Hk].
      split; [exact Hl|]. split; [|exact Hn]. api_fields.
      intros sid' token'. rewrite lookup_insert. case_decide as Hd.
      * subst sid'. intros [= <-]. exact Hk.
      * apply Ht.
    + set (s' := Core.mkState _ _ _ _ _ _ _ _).
      assert (He : extends s s').
      { split; [reflexivity|]. split; [eexists; reflexivity|auto]. }
      assert (Hk : knows s' sid (Z.of_nat (length (Core.sessions s)))).
      { exists u, (length (Core.sessions s)).
        split; [exact Eu|]. split; [exact (indexOf_fresh _ _ Ei)|reflexivity]. }
      split; [|intros token [= <-]; exact Hk].
      split; [eapply knows_extends; eauto|]. split; [|exact Hn]. api_fields.
      intros sid' token'. rewrite lookup_insert. case_decide as Hd.
      * subst sid'. intros [= <-]. exact Hk.
      * intros H. eapply knows_extends; eauto.
Qed.

Lemma getOrCreateSessionToken_preserves (sid : SessionId) :
  preserves d v (getOrCreateSessionToken W sid).
Proof. intros c Hc. apply getOrCreateSessionToken_knows, Hc. Qed.

Lemma idOrError_preserves (n : jsnum) : preserves d v (idOrError W n).
Proof.
  destruct n; [apply ret_preserves|].
  apply bind_preserves; [|intros; apply throw_preserves].
  apply wasm_preserves. intros s. apply extends_refl.
Qed.

Lemma perform_preserves (call : Call) : preserves d v (perform W ver call).
Proof.
  destruct call; cbn [perform]; unfold returning;
    (apply bind_preserves; [|intros; apply ret_preserves]).
  - unfold setClusterCapacity.
    repeat (apply bind_preserves; [apply assert_preserves|intros _]).
    apply wasm_preserves, set_cluster_capacity_extends.
  - unfold finalizeCreationRange. destruct (getIds range); [|apply ret_preserves].
    apply bind_preserves; [apply assert_preserves|intros _].
    apply bind_preserves; [apply getOrCreateSessionToken_preserves|intros token].
    apply wasm_preserves. intros s. apply finalize_range_extends.
  - unfold takeNextCreationRange.
    apply bind_preserves; [apply wasm_preserves, take_next_range_extends|].
    intros r c Hc. destruct (WasmIdCompressor.ids r); exact Hc.
  - apply wasm_preserves, generate_next_id_extends.
  - unfold normalizeToOpSpace.
    apply bind_preserves; [|apply idOrError_preserves].
    apply wasm_preserves. intros s. apply normalize_to_op_space_extends.
  - unfold normalizeToSessionSpace.
    apply bind_preserves; [apply getOrCreateSessionToken_preserves|intros token].
    apply bind_preserves; [|apply idOrError_preserves].
    apply wasm_preserves. intros s. apply normalize_to_session_space_extends.
  - unfold decompress, tryDecompress.
    apply bind_preserves;
      [|intros; apply nullish_preserves, throw_preserves].
    apply wasm_preserves. intros s. apply extends_refl.
  - apply wasm_preserves. intros s. apply extends_refl.
  - unfold recompress, tryRecompress.
    apply bind_preserves;
      [|intros; apply nullish_preserves, throw_preserves].
    apply wasm_preserves. intros s. apply extends_refl.
  - apply wasm_preserves. intros s. apply extends_refl.
  - unfold serialize.
    apply bind_preserves; [|intros; apply ret_preserves].
    apply wasm_preserves. intros s. apply extends_refl.
Qed.

Lemma create_consistent sessionId fresh (c : IdCompressor W) :
  create W sessionId fresh = Ok c -> consistent d v c.
Proof.
  unfold create. api_fields. unfold Core.new.
  set (sid := match sessionId with Some s => s | None => fresh end).
  destruct (Core.uuid_of_string sid) as [u|] eqn:Eu; [|discriminate].
  intros [= <-]. split; [|split]; api_fields; cbn [Core.sessions Core.localSession
    Core.lastTakenGenCount Core.nextLocalGenCount].
  - exists u, O. cbn [Core.indexOf Core.sessions Core.localSession].
    rewrite Z.eqb_refl. auto.
  - intros sid' token. rewrite lookup_empty. discriminate.
  - lia.
Qed.

(** Every compressor obtained from [create] through method calls is in
    agreement with its core. *)
Lemma reachable_consistent (c : IdCompressor W) :
  reachable W ver c -> consistent d v c.
Proof.
  induction 1 as [sessionId fresh c Hc|call c _ IH].
  - eapply create_consistent, Hc.
  - apply perform_preserves, IH.
Qed.

(** On a compressor obtained from [create], never more ids are taken
    than were generated. *)
Lemma reachable_pending_nonneg (c : IdCompressor W) :
  reachable W ver c ->
  0 <= Core.nextLocalGenCount (wasmCompressor W c)
       - Core.lastTakenGenCount (wasmCompressor W c).
Proof. intros H. apply reachable_consistent in H as (_ & _ & Hn). lia. Qed.

End AgreementFacts.

(** ** Round trip through op space *)

Section RoundTrip.

Context (d v : Z) (ver : string).

Local Abbreviation W := (Core.api d v).

Lemma reachable_run (calls : list Call) (c : IdCompressor W) :
  reachable W ver c -> reachable W ver (run W ver calls c).
Proof.
  revert c. induction calls as [|call calls IH]; intros c Hc; [exact Hc|].
  cbn [run]. apply IH. constructor. exact Hc.
Qed.

Lemma session_of_token_index (u : Z) (i : nat) (s : Core.CompressorState) :
  Core.indexOf u (Core.sessions s) = Some i ->
  Core.session_of_token (Z.of_nat i) s = Some i.
Proof.
  intros H. apply indexOf_lt in H. unfold Core.session_of_token.
  destruct (Z.leb_spec 0 (Z.of_nat i)); [|lia].
  destruct (Z.ltb_spec (Z.of_nat i) (Z.of_nat (length (Core.sessions s)))); [|lia].
  cbn [andb]. rewrite Nat2Z.id. reflexivity.
Qed.

(** Asking for the token of the local session never touches the core. *)
Lemma token_of_local_session (c : IdCompressor W) :
  consistent d v c ->
  exists t',
    getOrCreateSessionToken W (localSessionId W c) c
    = (Ok (Z.of_nat (Core.localSession (wasmCompressor W c))),
       mkIdCompressor W (wasmCompressor W c) (localSessionId W c) t').
Proof.
  intros (Hl & Ht & _). destruct c as [s l t]. api_fields.
  destruct Hl as (u & i & Eu & Ei & Hi). apply Nat2Z.inj in Hi. subst i.
  unfold getOrCreateSessionToken. api_fields.
  destruct (t !! l) as [token|] eqn:Et.
  - destruct (Ht l token Et) as (u' & i' & Eu' & Ei' & ->).
    assert (u' = u) as -> by congruence.
    assert (i' = Core.localSession s) as -> by congruence.
    eauto.
  - methods. unfold Core.get_token, Core.internSession. rewrite Eu, Ei. eauto.
Qed.

Lemma normalizeToOpSpace_settled (x : Z) (c : IdCompressor W) :
  settled x (wasmCompressor W c) = true ->
  normalizeToOpSpace W x c = (Ok x, c).
Proof.
  destruct c as [s l t]. unfold settled. api_fields. intros Hs.
  methods. unfold Core.normalize_to_op_space.
  destruct (0 <=? x); [reflexivity|].
  destruct (Core.findBySessionGen _ _ _); [discriminate|reflexivity].
Qed.

Lemma normalizeToSessionSpace_settled (x : Z) (c : IdCompressor W) :
  consistent d v c ->
  settled x (wasmCompressor W c) = true ->
  fst (normalizeToSessionSpace W x (localSessionId W c) c) = Ok x.
Proof.
  intros Hc Hs. destruct (token_of_local_session c Hc) as [t' Ht'].
  destruct Hc as ((u & i & _ & Ei & Hi) & _). apply Nat2Z.inj in Hi. subst i.
  apply session_of_token_index in Ei.
  unfold normalizeToSessionSpace, bind. rewrite Ht'. clear Ht'.
  destruct c as [s l t]. unfold settled in Hs. api_fields.
  methods. unfold Core.normalize_to_session_space. rewrite Ei.
  destruct (0 <=? x).
  - destruct (Core.findByFinal _ _); [reflexivity|discriminate].
  - destruct (Core.findBySessionGen _ _ _); [discriminate|].
    rewrite Nat.eqb_refl. reflexivity.
Qed.

End RoundTrip.

(** Where the round trip does hold on the modelled core: on a compressor
    obtained from [create] through method calls, an id [x] that both
    normalisers leave alone (a final id that a cluster covers, or a local
    id whose GenCount no cluster of the local session covers) comes back
    unchanged. *)
Theorem round_trip_of_settled_id
    (d v : Z) (ver : string) (c : IdCompressor (Core.api d v)) (x : Z) :
  reachable (Core.api d v) ver c ->
  settled x (wasmCompressor _ c) = true ->
  fst (roundTrip (Core.api d v) x c) = Ok x.
Proof.
  intros Hr Hs. apply reachable_consistent in Hr.
  unfold roundTrip, bind. rewrite (normalizeToOpSpace_settled d v x c Hs).
  apply normalizeToSessionSpace_settled; assumption.
Qed.

(** An instance: the final id 0 on the compressor whose first id was
    finalised. *)
Lemma round_trip_of_settled_id_witness :
  reachable core writtenVersion finalizedA
  /\ settled 0 (wasmCompressor core finalizedA) = true
  /\ fst (roundTrip core 0 finalizedA) = Ok 0.
Proof.
  assert (Hr : reachable core writtenVersion finalizedA).
  { apply reachable_run.
    apply (reachable_create core writtenVersion (Some sessionA) sessionB).
    reflexivity. }
  assert (Hs : settled 0 (wasmCompressor core finalizedA) = true) by reflexivity.
  split; [exact Hr|]. split; [exact Hs|].
  exact (round_trip_of_settled_id 512 1 writtenVersion finalizedA 0 Hr Hs).
Defined.


(** Whatever the core and the blob, every range a compressor resumed
    without a session argument hands out carries the generated id. *)
Lemma resumed_range_carries_generated_id
    (W : WasmIdCompressor.Api) (ver : string)
    (serialized : SerializedIdCompressor) (generated : StableId) :
  match deserialize W ver serialized None generated with
  | Ok r =>
      match takeNextCreationRange W r with
      | (Ok range, _) => sessionId range = generated
      | (Throw _, _) => True
      end
  | Throw _ => True
  end.
Proof.
  unfold deserialize. destruct (bool_decide _); [|exact I].
  destruct (WasmIdCompressor.deserialize W (ser_bytes serialized) generated)
    as [w|e]; [|exact I].
  unfold takeNextCreationRange, bind, wasm.
  cbn [wasmCompressor localSessionId sessionTokens].
  destruct (WasmIdCompressor.take_next_range W w) as [[[[i|]]|e] w'];
    cbn [WasmIdCompressor.ids]; try exact I; reflexivity.
Qed.

(** C3, evaluated on the code.  Session A mints one id and is serialised
    with its session; the blob is resumed while the random generator
    produces the id of [sessionB].  The resumed compressor serialises to
    the very same blob, but what the client sees of a further call
    differs: [takeNextCreationRange] now tags the pending range with
    [sessionB], where the original compressor tags it with [sessionA]. *)
Theorem resumed_compressor_changes_session_id :
  fst (serialize core writtenVersion true mintedA) = Ok blobA
  /\ deserialize core writtenVersion blobA None sessionB = Ok (resumedA sessionB)
  /\ fst (serialize core writtenVersion true (resumedA sessionB)) = Ok blobA
  /\ observe core writtenVersion [TakeNextCreationRange] mintedA
     = [Ok (VRange (mkRange sessionA (Some (mkIds 1 1 None))))]
  /\ observe core writtenVersion [TakeNextCreationRange] (resumedA sessionB)
     = [Ok (VRange (mkRange sessionB (Some (mkIds 1 1 None))))]
  /\ sessionA <> sessionB.
Proof.
  split; [vm_compute; reflexivity|].
  split; [reflexivity|].
  split; [vm_compute; reflexivity|].
  split; [vm_compute; reflexivity|].
  split; [vm_compute; reflexivity|discriminate].
Qed.

(** * Further properties of the adapter *)

Section CacheFacts.

Context (W : WasmIdCompressor.Api) (ver : string).

(** The three ways [getOrCreateSessionToken] can go. *)
Lemma getOrCreateSessionToken_cases (sid : SessionId) (c : IdCompressor W) :
  (exists token,
      sessionTokens W c !! sid = Some token
      /\ getOrCreateSessionToken W sid c = (Ok token, c))
  \/ (sessionTokens W c !! sid = None
      /\ exists w',
          (exists token,
              WasmIdCompressor.get_token W sid (wasmCompressor W c) = (Ok token, w')
              /\ getOrCreateSessionToken W sid c
                 = (Ok token,
                    mkIdCompressor W w' (localSessionId W c)
                      (<[sid := token]> (sessionTokens W c))))
          \/ (exists e,
              WasmIdCompressor.get_token W sid (wasmCompressor W c) = (Throw e, w')
              /\ getOrCreateSessionToken W sid c
                 = (Throw e,
                    mkIdCompressor W w' (localSessionId W c) (sessionTokens W c)))).
Proof.
  unfold getOrCreateSessionToken.
  destruct (sessionTokens W c !! sid) as [token|] eqn:Et; [left; eauto|].
  right. split; [reflexivity|]. unfold bind, wasm.
  destruct (WasmIdCompressor.get_token W sid (wasmCompressor W c)) as [[token|e] w'];
    exists w'; simpl; [left|right]; eauto.
Qed.

Lemma frame_ret {A} (l : list string) (a : A) : frame W l (ret a).
Proof. intros c. simpl. split; [reflexivity|]. intros sid H. destruct H. reflexivity. Qed.

Lemma frame_throw {A} (l : list string) (e : JsError) : frame W l (@throw _ A e).
Proof. intros c. simpl. split; [reflexivity|]. intros sid H. destruct H. reflexivity. Qed.

Lemma frame_assert (l : list string) (b : bool) (tag : AssertTag) :
  frame W l (assert b tag).
Proof. destruct b; [apply frame_ret|apply frame_throw]. Qed.

Lemma frame_wasm {A} (l : list string) (op : M (WasmIdCompressor.t W) A) :
  frame W l (wasm W op).
Proof.
  intros c. destruct (wasm_fields W op c) as (El & Et & _).
  split; [exact El|]. rewrite Et. intros sid H. destruct H. reflexivity.
Qed.

Lemma frame_bind {A B} (l : list string) (m : M (IdCompressor W) A)
    (k : A -> M (IdCompressor W) B) :
  frame W l m -> (forall a, frame W l (k a)) -> frame W l (bind m k).
Proof.
  intros Hm Hk c. specialize (Hm c). unfold bind.
  destruct (m c) as [[a|e] c1]; simpl in Hm; [|exact Hm].
  destruct Hm as [Hl Ht]. destruct (Hk a c1) as [Hl' Ht'].
  split; [congruence|]. intros sid H.
  destruct (decide (sessionTokens W c1 !! sid = sessionTokens W c !! sid)) as [E|E].
  - rewrite <- E in H. destruct (Ht' sid H) as [Hin Hn]. rewrite <- E. auto.
  - auto.
Qed.

Lemma frame_nullish {A} (l : list string) (o : option A) (m : M (IdCompressor W) A) :
  frame W l m -> frame W l (nullish o m).
Proof. destruct o; [intros _; apply frame_ret|auto]. Qed.

Lemma frame_getOrCreateSessionToken (sid : SessionId) :
  frame W [sid] (getOrCreateSessionToken W sid).
Proof.
  intros c.
  destruct (getOrCreateSessionToken_cases sid c)
    as [(token & Et & ->)|(Et & w' & [(token & _ & ->)|(e & _ & ->)])]; simpl.
  - split; [reflexivity|]. intros s H. destruct H. reflexivity.
  - split; [reflexivity|]. intros s H.
    destruct (decide (sid = s)) as [<-|Hne].
    + split; [apply list_elem_of_singleton; reflexivity|exact Et].
    + rewrite lookup_insert_ne in H by exact Hne. destruct H. reflexivity.
  - split; [reflexivity|]. intros s H. destruct H. reflexivity.
Qed.

Lemma frame_idOrError (l : list string) (n : jsnum) : frame W l (idOrError W n).
Proof.
  destruct n; [apply frame_ret|].
  apply frame_bind; [apply frame_wasm|intros; apply frame_throw].
Qed.

Lemma frame_perform (call : Call) :
  frame W (sessions_named call) (perform W ver call).
Proof.
  destruct call; cbn [perform sessions_named]; unfold returning;
    (apply frame_bind; [|intros; apply frame_ret]).
  - unfold setClusterCapacity.
    repeat (apply frame_bind; [apply frame_assert|intros _]). apply frame_wasm.
  - unfold finalizeCreationRange. destruct (getIds range); [|apply frame_ret].
    apply frame_bind; [apply frame_assert|intros _].
    apply frame_bind; [apply frame_getOrCreateSessionToken|intros; apply frame_wasm].
  - unfold takeNextCreationRange.
    apply frame_bind; [apply frame_wasm|].
    intros r c. destruct (WasmIdCompressor.ids r); simpl;
      (split; [reflexivity|]; intros sid H; destruct H; reflexivity).
  - apply frame_wasm.
  - unfold normalizeToOpSpace.
    apply frame_bind; [apply frame_wasm|apply frame_idOrError].
  - unfold normalizeToSessionSpace.
    apply frame_bind; [apply frame_getOrCreateSessionToken|intros token].
    apply frame_bind; [apply frame_wasm|apply frame_idOrError].
  - unfold decompress, tryDecompress.
    apply frame_bind; [apply frame_wasm|intros; apply frame_nullish, frame_throw].
  - apply frame_wasm.
  - unfold recompress, tryRecompress.
    apply frame_bind; [apply frame_wasm|intros; apply frame_nullish, frame_throw].
  - apply frame_wasm.
  - unfold serialize.
    apply frame_bind; [apply frame_wasm|intros; apply frame_ret].
Qed.

End CacheFacts.

Section CacheFacts2.

Context (W : WasmIdCompressor.Api) (ver : string).

Lemma perform_keeps_cached (call : Call) (c : IdCompressor W) (sid : SessionId)
    (token : Z) :
  sessionTokens W c !! sid = Some token ->
  sessionTokens W (snd (perform W ver call c)) !! sid = Some token.
Proof.
  intros H. destruct (frame_perform W ver call c) as [_ Ht].
  destruct (decide (sessionTokens W (snd (perform W ver call c)) !! sid
                    = sessionTokens W c !! sid)) as [E|E].
  - congruence.
  - destruct (Ht sid E) as [_ Hn]. congruence.
Qed.

Lemma run_keeps_cached (calls : list Call) (c : IdCompressor W) (sid : SessionId)
    (token : Z) :
  sessionTokens W c !! sid = Some token ->
  sessionTokens W (run W ver calls c) !! sid = Some token.
Proof.
  revert c. induction calls as [|call calls IH]; intros c H; [exact H|].
  cbn [run]. apply IH, perform_keeps_cached, H.
Qed.

Lemma run_keeps_localSessionId (calls : list Call) (c : IdCompressor W) :
  localSessionId W (run W ver calls c) = localSessionId W c.
Proof.
  revert c. induction calls as [|call calls IH]; intros c; [reflexivity|].
  cbn [run]. rewrite IH. apply (frame_perform W ver call c).
Qed.

Lemma takeNextCreationRange_tag (c c' : IdCompressor W) (range : IdCreationRange) :
  takeNextCreationRange W c = (Ok range, c') ->
  sessionId range = localSessionId W c.
Proof.
  unfold takeNextCreationRange, bind, wasm.
  destruct (WasmIdCompressor.take_next_range W (wasmCompressor W c)) as [[[[i|]]|e] w'];
    simpl; intros [= <- _]; reflexivity.
Qed.

(** What a single call can hand back as a range. *)
Lemma perform_range_tag (call : Call) (c c' : IdCompressor W) (range : IdCreationRange) :
  perform W ver call c = (Ok (VRange range), c') ->
  sessionId range = localSessionId W c.
Proof.
  destruct call; cbn [perform]; unfold returning, bind;
    match goal with |- context [match ?m c with _ => _ end] =>
      destruct (m c) as [[a|e] c1] eqn:E end;
    simpl; try discriminate.
  intros [= <- _]. eapply takeNextCreationRange_tag, E.
Qed.

Lemma observe_range_tags (calls : list Call) (c : IdCompressor W) :
  Forall (fun r => match r with
                   | Ok (VRange range) => sessionId range = localSessionId W c
                   | _ => True
                   end) (observe W ver calls c).
Proof.
  revert c. induction calls as [|call calls IH]; intros c; cbn [observe]; [constructor|].
  destruct (perform W ver call c) as [r c'] eqn:E. constructor.
  - destruct r as [[]|]; try exact I. eapply perform_range_tag, E.
  - assert (El : localSessionId W c' = localSessionId W c).
    { pose proof (frame_perform W ver call c) as [Hl _]. rewrite E in Hl. exact Hl. }
    rewrite <- El. apply IH.
Qed.

Lemma run_cached_was_named (calls : list Call) (c : IdCompressor W) (sid : SessionId)
    (token : Z) :
  sessionTokens W (run W ver calls c) !! sid = Some token ->
  sessionTokens W c !! sid = Some token
  \/ exists call, call ∈ calls /\ sid ∈ sessions_named call.
Proof.
  revert c. induction calls as [|call calls IH]; intros c H; [left; exact H|].
  cbn [run] in H. destruct (IH _ H) as [Hc|(call' & Hin & Hn)].
  - destruct (frame_perform W ver call c) as [_ Ht].
    destruct (decide (sessionTokens W (snd (perform W ver call c)) !! sid
                      = sessionTokens W c !! sid)) as [E|E].
    + left. congruence.
    + right. exists call. split; [left|apply (Ht sid E)].
  - right. exists call'. split; [right; exact Hin|exact Hn].
Qed.

End CacheFacts2.

(** X1.  Once [getOrCreateSessionToken] has returned a token for a
    session, every later request for that session, after whatever calls,
    returns the same token from the cache and leaves the compressor, the
    core included, untouched. *)
Theorem token_is_served_from_cache
    (W : WasmIdCompressor.Api) (ver : string) (sid : SessionId) (token : Z)
    (c c' : IdCompressor W) (calls : list Call) :
  getOrCreateSessionToken W sid c = (Ok token, c') ->
  getOrCreateSessionToken W sid (run W ver calls c')
  = (Ok token, run W ver calls c').
Proof.
  intros H.
  assert (Hc : sessionTokens W c' !! sid = Some token).
  { destruct (getOrCreateSessionToken_cases W sid c)
      as [(t & Et & E)|(Et & w' & [(t & _ & E)|(e & _ & E)])];
      rewrite E in H; inversion H; subst; clear H.
    - exact Et.
    - cbn [sessionTokens]. apply lookup_insert_eq. }
  apply (run_keeps_cached W ver calls) in Hc.
  unfold getOrCreateSessionToken. rewrite Hc. reflexivity.
Qed.

(** X2.  A call changes the cached token of a session only if it names
    that session ([finalizeCreationRange] through its range,
    [normalizeToSessionSpace] through its origin) and the session had no
    cached token; the change is then a new entry.  No call replaces or
    removes an entry. *)
Theorem token_cache_changes_only_for_named_session
    (W : WasmIdCompressor.Api) (ver : string) (call : Call) (c : IdCompressor W)
    (sid : SessionId) :
  sessionTokens W (snd (perform W ver call c)) !! sid <> sessionTokens W c !! sid ->
  sid ∈ sessions_named call
  /\ sessionTokens W c !! sid = None
  /\ is_Some (sessionTokens W (snd (perform W ver call c)) !! sid).
Proof.
  intros H. destruct (frame_perform W ver call c) as [_ Ht].
  destruct (Ht sid H) as [Hin Hn]. split; [exact Hin|]. split; [exact Hn|].
  rewrite Hn in H.
  destruct (sessionTokens W (snd (perform W ver call c)) !! sid); [eauto|congruence].
Qed.

(** X3.  A compressor made by [create] keeps the session id it was
    given (or, without one, the generated id): after any calls
    [localSessionId] is that id, and every range any
    [takeNextCreationRange] among them hands out carries it. *)
Theorem created_compressor_keeps_its_session_id
    (W : WasmIdCompressor.Api) (ver : string) (sessionId0 : option SessionId)
    (fresh : SessionId) (c : IdCompressor W) (calls : list Call) :
  create W sessionId0 fresh = Ok c ->
  localSessionId W (run W ver calls c) = default fresh sessionId0
  /\ Forall (fun r => match r with
                      | Ok (VRange range) => sessionId range = default fresh sessionId0
                      | _ => True
                      end) (observe W ver calls c).
Proof.
  intros H.
  assert (Hl : localSessionId W c = default fresh sessionId0).
  { unfold create in H.
    destruct (WasmIdCompressor.new W _); [|discriminate].
    inversion H. destruct sessionId0; reflexivity. }
  rewrite <- Hl. split; [apply run_keeps_localSessionId|apply observe_range_tags].
Qed.

(** X9.  A compressor resumed with an explicit session id starts with
    an empty token cache, keeps that id as [localSessionId] through any
    calls, and tags every range it hands out with it. *)
Theorem resumed_compressor_keeps_given_session_id
    (W : WasmIdCompressor.Api) (ver : string) (serialized : SerializedIdCompressor)
    (newSessionId generated : SessionId) (c : IdCompressor W) (calls : list Call) :
  deserialize W ver serialized (Some newSessionId) generated = Ok c ->
  sessionTokens W c = ∅
  /\ localSessionId W (run W ver calls c) = newSessionId
  /\ Forall (fun r => match r with
                      | Ok (VRange range) => sessionId range = newSessionId
                      | _ => True
                      end) (observe W ver calls c).
Proof.
  intros H.
  assert (Hl : localSessionId W c = newSessionId /\ sessionTokens W c = ∅).
  { unfold deserialize in H. destruct (bool_decide _); [|discriminate].
    destruct (WasmIdCompressor.deserialize W _ _); [|discriminate].
    inversion H. split; reflexivity. }
  destruct Hl as [Hl Ht]. split; [exact Ht|]. rewrite <- Hl.
  split; [apply run_keeps_localSessionId|apply observe_range_tags].
Qed.

(** X8.  The token cache of a compressor made by [create] only ever
    holds sessions that an earlier [finalizeCreationRange] or
    [normalizeToSessionSpace] call named. *)
Theorem cached_sessions_were_named
    (W : WasmIdCompressor.Api) (ver : string) (sessionId0 : option SessionId)
    (fresh : SessionId) (c : IdCompressor W) (calls : list Call)
    (sid : SessionId) (token : Z) :
  create W sessionId0 fresh = Ok c ->
  sessionTokens W (run W ver calls c) !! sid = Some token ->
  exists call, call ∈ calls /\ sid ∈ sessions_named call.
Proof.
  intros Hc H.
  assert (He : sessionTokens W c = ∅).
  { unfold create in Hc. destruct (WasmIdCompressor.new W _); [|discriminate].
    inversion Hc. reflexivity. }
  destruct (run_cached_was_named W ver calls c sid token H) as [Hs|Hn]; [|exact Hn].
  rewrite He, lookup_empty in Hs. discriminate.
Qed.

(** X4.  When the core refuses a token for a session that is not yet
    cached, [finalizeCreationRange] (for a range with ids and without
    overrides) and [normalizeToSessionSpace] throw the core's error
    unchanged, make no further call into the core and cache nothing. *)
Theorem rejected_session_reaches_caller
    (W : WasmIdCompressor.Api) (c : IdCompressor W) (range : IdCreationRange)
    (i : Ids) (e : JsError) (w' : WasmIdCompressor.t W) :
  getIds range = Some i ->
  overrides i = None ->
  sessionTokens W c !! sessionId range = None ->
  WasmIdCompressor.get_token W (sessionId range) (wasmCompressor W c) = (Throw e, w') ->
  finalizeCreationRange W range c
  = (Throw e, mkIdCompressor W w' (localSessionId W c) (sessionTokens W c))
  /\ forall id,
      normalizeToSessionSpace W id (sessionId range) c
      = (Throw e, mkIdCompressor W w' (localSessionId W c) (sessionTokens W c)).
Proof.
  intros Hi Ho Hn Hg.
  assert (Ht : getOrCreateSessionToken W (sessionId range) c
               = (Throw e, mkIdCompressor W w' (localSessionId W c) (sessionTokens W c))).
  { unfold getOrCreateSessionToken, bind, wasm. rewrite Hn, Hg. reflexivity. }
  split.
  - unfold finalizeCreationRange. rewrite Hi, Ho. unfold bind at 1. simpl.
    unfold bind. rewrite Ht. reflexivity.
  - intros id. unfold normalizeToSessionSpace, bind. rewrite Ht. reflexivity.
Qed.

(** Witness for [rejected_session_reaches_caller]. *)
Lemma rejected_session_reaches_caller_witness :
  let range := mkRange malformed (Some (mkIds 1 1 None)) in
  getIds range = Some (mkIds 1 1 None)
  /\ overrides (mkIds 1 1 None) = None
  /\ sessionTokens core freshA !! sessionId range = None
  /\ WasmIdCompressor.get_token core (sessionId range) (wasmCompressor core freshA)
     = (Throw (WasmError InvalidArgument), wasmCompressor core freshA)
  /\ (finalizeCreationRange core range freshA
      = (Throw (WasmError InvalidArgument),
         mkIdCompressor core (wasmCompressor core freshA)
           (localSessionId core freshA) (sessionTokens core freshA))
      /\ forall id,
          normalizeToSessionSpace core id (sessionId range) freshA
          = (Throw (WasmError InvalidArgument),
             mkIdCompressor core (wasmCompressor core freshA)
               (localSessionId core freshA) (sessionTokens core freshA))).
Proof.
  intros range.
  assert (H1 : getIds range = Some (mkIds 1 1 None)) by reflexivity.
  assert (H2 : overrides (mkIds 1 1 None) = None) by reflexivity.
  assert (H3 : sessionTokens core freshA !! sessionId range = None) by reflexivity.
  assert (H4 : WasmIdCompressor.get_token core (sessionId range)
                 (wasmCompressor core freshA)
               = (Throw (WasmError InvalidArgument), wasmCompressor core freshA))
    by reflexivity.
  repeat (split; [assumption|]).
  exact (rejected_session_reaches_caller core freshA range (mkIds 1 1 None)
           (WasmError InvalidArgument) (wasmCompressor core freshA) H1 H2 H3 H4).
Defined.

(** X5.  When the core answers [normalize_to_session_space] with [NaN],
    [normalizeToSessionSpace] throws an [Error] whose message is the
    string [get_error_string] returns, and the token of the origin stays
    cached although the call failed. *)
Theorem failed_normalization_reports_core_error
    (W : WasmIdCompressor.Api) (c c1 : IdCompressor W) (id token : Z)
    (origin : SessionId) (m : string) (w2 w3 : WasmIdCompressor.t W) :
  getOrCreateSessionToken W origin c = (Ok token, c1) ->
  WasmIdCompressor.normalize_to_session_space W id token (wasmCompressor W c1)
  = (Ok JNaN, w2) ->
  WasmIdCompressor.get_error_string W w2 = (Ok m, w3) ->
  normalizeToSessionSpace W id origin c
  = (Throw (Error m), mkIdCompressor W w3 (localSessionId W c1) (sessionTokens W c1))
  /\ sessionTokens W c1 !! origin = Some token.
Proof.
  intros Ht Hn He. split.
  - unfold normalizeToSessionSpace, bind. rewrite Ht.
    unfold wasm at 1. rewrite Hn. unfold idOrError, bind, wasm.
    cbn [wasmCompressor localSessionId sessionTokens]. rewrite He. reflexivity.
  - destruct (getOrCreateSessionToken_cases W origin c)
      as [(t & Et & E)|(Et & w' & [(t & _ & E)|(e & _ & E)])];
      rewrite E in Ht; inversion Ht; subst; clear Ht.
    + exact Et.
    + cbn [sessionTokens]. apply lookup_insert_eq.
Qed.

(** Witness for [failed_normalization_reports_core_error]. *)
Lemma failed_normalization_reports_core_error_witness :
  let c1 := mkIdCompressor core (wasmCompressor core freshA) sessionA {[sessionA := 0]} in
  let w2 := Core.set_lastError (Some UnknownId) (wasmCompressor core freshA) in
  getOrCreateSessionToken core sessionA freshA = (Ok 0, c1)
  /\ WasmIdCompressor.normalize_to_session_space core 7 0 (wasmCompressor core c1)
     = (Ok JNaN, w2)
  /\ WasmIdCompressor.get_error_string core w2 = (Ok "UnknownId"%string, w2)
  /\ (normalizeToSessionSpace core 7 sessionA freshA
      = (Throw (Error "UnknownId"),
         mkIdCompressor core w2 (localSessionId core c1) (sessionTokens core c1))
      /\ sessionTokens core c1 !! sessionA = Some 0).
Proof.
  intros c1 w2.
  assert (H1 : getOrCreateSessionToken core sessionA freshA = (Ok 0, c1)) by reflexivity.
  assert (H2 : WasmIdCompressor.normalize_to_session_space core 7 0
                 (wasmCompressor core c1) = (Ok JNaN, w2)) by reflexivity.
  assert (H3 : WasmIdCompressor.get_error_string core w2
               = (Ok "UnknownId"%string, w2)) by reflexivity.
  repeat (split; [assumption|]).
  exact (failed_normalization_reports_core_error core freshA c1 7 0 sessionA
           "UnknownId" w2 w2 H1 H2 H3).
Defined.

(** X6.  A blob written by [serialize] passes the version check of
    [deserialize] under the same written version, so that the outcome is
    the core's alone, with [sessionId ?? generateStableId()] as session
    id and an empty token cache; under any other written version it is
    rejected before the core is asked. *)
Theorem written_version_round_trip
    (W : WasmIdCompressor.Api) (ver : string) (withSession : bool)
    (c c' : IdCompressor W) (blob : SerializedIdCompressor) :
  serialize W ver withSession c = (Ok blob, c') ->
  (forall sessionId0 generated,
      deserialize W ver blob sessionId0 generated
      = match WasmIdCompressor.deserialize W (ser_bytes blob)
                (default generated sessionId0) with
        | Ok w => Ok (mkIdCompressor W w (default generated sessionId0) ∅)
        | Throw e => Throw e
        end)
  /\ (forall ver' sessionId0 generated,
      ver' <> ver ->
      deserialize W ver' blob sessionId0 generated
      = Throw (AssertionError (Msg "Unknown serialized compressor version found."))).
Proof.
  intros H.
  assert (Hv : version blob = ver).
  { unfold serialize, bind in H.
    destruct (wasm W (WasmIdCompressor.serialize W withSession) c) as [[b|e] c1];
      [|discriminate].
    inversion H. reflexivity. }
  split.
  - intros sid g. unfold deserialize. rewrite bool_decide_eq_true_2 by exact Hv.
    destruct sid; reflexivity.
  - intros ver' sid g Hne. unfold deserialize.
    rewrite bool_decide_eq_false_2 by congruence. reflexivity.
Qed.

(** Witness for [written_version_round_trip]. *)
Lemma written_version_round_trip_witness :
  serialize core writtenVersion true mintedA = (Ok blobA, mintedA)
  /\ (forall sessionId0 generated,
      deserialize core writtenVersion blobA sessionId0 generated
      = match WasmIdCompressor.deserialize core (ser_bytes blobA)
                (default generated sessionId0) with
        | Ok w => Ok (mkIdCompressor core w (default generated sessionId0) ∅)
        | Throw e => Throw e
        end)
  /\ (forall ver' sessionId0 generated,
      ver' <> writtenVersion ->
      deserialize core ver' blobA sessionId0 generated
      = Throw (AssertionError (Msg "Unknown serialized compressor version found."))).
Proof.
  assert (H : serialize core writtenVersion true mintedA = (Ok blobA, mintedA))
    by reflexivity.
  split; [exact H|].
  exact (written_version_round_trip core writtenVersion true mintedA mintedA blobA H).
Defined.

(** X7.  Feeding the range [takeNextCreationRange] returns straight back
    into [finalizeCreationRange]: when the core reported [n] pending ids
    from [first], the core is asked, under the token of the local
    session, to finalise [2 - n] ids from [first]. *)
Theorem taken_range_fed_back
    (W : WasmIdCompressor.Api) (c : IdCompressor W) (first n : Z)
    (w' : WasmIdCompressor.t W) :
  WasmIdCompressor.take_next_range W (wasmCompressor W c)
  = (Ok (WasmIdCompressor.mkInteropRange
           (Some (WasmIdCompressor.mkInteropIds first n))), w') ->
  bind (takeNextCreationRange W) (finalizeCreationRange W) c
  = bind (getOrCreateSessionToken W (localSessionId W c))
      (fun token => wasm W (WasmIdCompressor.finalize_range W token first (2 - n)))
      (mkIdCompressor W w' (localSessionId W c) (sessionTokens W c)).
Proof.
  intros H. unfold bind at 1. unfold takeNextCreationRange, bind at 1, wasm at 1.
  rewrite H. cbn [WasmIdCompressor.ids WasmIdCompressor.first_local_gen_count
                  WasmIdCompressor.count localSessionId].
  unfold finalizeCreationRange.
  cbn [getIds ids overrides firstGenCount lastGenCount sessionId].
  replace (first - (first + n - 1) + 1) with (2 - n) by lia.
  reflexivity.
Qed.

(** Witness for [taken_range_fed_back]. *)
Lemma taken_range_fed_back_witness :
  let w' := Core.mkState 0 1 1 512 [] [0x00000000000040008000000000000000] 0 None in
  WasmIdCompressor.take_next_range core (wasmCompressor core mintedA)
  = (Ok (WasmIdCompressor.mkInteropRange
           (Some (WasmIdCompressor.mkInteropIds 1 1))), w')
  /\ bind (takeNextCreationRange core) (finalizeCreationRange core) mintedA
     = bind (getOrCreateSessionToken core (localSessionId core mintedA))
         (fun token => wasm core (WasmIdCompressor.finalize_range core token 1 (2 - 1)))
         (mkIdCompressor core w' (localSessionId core mintedA)
            (sessionTokens core mintedA)).
Proof.
  intros w'.
  assert (H : WasmIdCompressor.take_next_range core (wasmCompressor core mintedA)
              = (Ok (WasmIdCompressor.mkInteropRange
                       (Some (WasmIdCompressor.mkInteropIds 1 1))), w'))
    by reflexivity.
  split; [exact H|].
  exact (taken_range_fed_back core mintedA 1 1 w' H).
Defined.

(** Witness for [token_is_served_from_cache]. *)
Lemma token_is_served_from_cache_witness :
  let calls := [GenerateCompressedId None; NormalizeToSessionSpace 0 sessionA] in
  getOrCreateSessionToken core sessionB freshA = (Ok 1, toldB)
  /\ getOrCreateSessionToken core sessionB (run core writtenVersion calls toldB)
     = (Ok 1, run core writtenVersion calls toldB).
Proof.
  intros calls.
  assert (H : getOrCreateSessionToken core sessionB freshA = (Ok 1, toldB))
    by reflexivity.
  split; [exact H|].
  exact (token_is_served_from_cache core writtenVersion sessionB 1 freshA toldB calls H).
Defined.

(** Witness for [token_cache_changes_only_for_named_session]. *)
Lemma token_cache_changes_only_for_named_session_witness :
  let call := NormalizeToSessionSpace 0 sessionB in
  sessionTokens core (snd (perform core writtenVersion call freshA)) !! sessionB
  <> sessionTokens core freshA !! sessionB
  /\ sessionB ∈ sessions_named call
  /\ sessionTokens core freshA !! sessionB = None
  /\ is_Some (sessionTokens core (snd (perform core writtenVersion call freshA))
              !! sessionB).
Proof.
  intros call.
  assert (H : sessionTokens core (snd (perform core writtenVersion call freshA))
              !! sessionB <> sessionTokens core freshA !! sessionB).
  { intros E. vm_compute in E. discriminate E. }
  split; [exact H|].
  exact (token_cache_changes_only_for_named_session core writtenVersion call freshA
           sessionB H).
Defined.

(** Witness for [created_compressor_keeps_its_session_id]. *)
Lemma created_compressor_keeps_its_session_id_witness :
  let calls := [GenerateCompressedId None; TakeNextCreationRange] in
  create core (Some sessionA) sessionB = Ok freshA
  /\ localSessionId core (run core writtenVersion calls freshA)
     = default sessionB (Some sessionA)
  /\ Forall (fun r => match r with
                      | Ok (VRange range) =>
                          sessionId range = default sessionB (Some sessionA)
                      | _ => True
                      end) (observe core writtenVersion calls freshA).
Proof.
  intros calls.
  assert (H : create core (Some sessionA) sessionB = Ok freshA) by reflexivity.
  split; [exact H|].
  exact (created_compressor_keeps_its_session_id core writtenVersion (Some sessionA)
           sessionB freshA calls H).
Defined.

(** Witness for [resumed_compressor_keeps_given_session_id]. *)
Lemma resumed_compressor_keeps_given_session_id_witness :
  let calls := [GenerateCompressedId None; TakeNextCreationRange] in
  deserialize core writtenVersion blobShared (Some sessionB) sessionA = Ok joinedB
  /\ sessionTokens core joinedB = ∅
  /\ localSessionId core (run core writtenVersion calls joinedB) = sessionB
  /\ Forall (fun r => match r with
                      | Ok (VRange range) => sessionId range = sessionB
                      | _ => True
                      end) (observe core writtenVersion calls joinedB).
Proof.
  intros calls.
  assert (H : deserialize core writtenVersion blobShared (Some sessionB) sessionA
              = Ok joinedB) by reflexivity.
  split; [exact H|].
  exact (resumed_compressor_keeps_given_session_id core writtenVersion blobShared
           sessionB sessionA joinedB calls H).
Defined.

(** Witness for [cached_sessions_were_named]. *)
Lemma cached_sessions_were_named_witness :
  let calls := [NormalizeToSessionSpace 0 sessionB] in
  create core (Some sessionA) sessionB = Ok freshA
  /\ sessionTokens core (run core writtenVersion calls freshA) !! sessionB = Some 1
  /\ exists call, call ∈ calls /\ sessionB ∈ sessions_named call.
Proof.
  intros calls.
  assert (H1 : create core (Some sessionA) sessionB = Ok freshA) by reflexivity.
  assert (H2 : sessionTokens core (run core writtenVersion calls freshA) !! sessionB
               = Some 1) by (vm_compute; reflexivity).
  split; [exact H1|]. split; [exact H2|].
  exact (cached_sessions_were_named core writtenVersion (Some sessionA) sessionB freshA
           calls sessionB 1 H1 H2).
Defined.

(** * Where the round trip through op space breaks *)

Section RoundTripFailures.

Context (d v : Z).

Local Abbreviation W := (Core.api d v).

Lemma get_token_keeps_clusters (sid : SessionId) (s : Core.CompressorState) :
  Core.clusters (snd (Core.get_token sid s)) = Core.clusters s.
Proof.
  unfold Core.get_token, Core.internSession.
  destruct (Core.uuid_of_string sid); [|reflexivity].
  destruct (Core.indexOf _ _); reflexivity.
Qed.

(** A final id sent to session space comes back as itself or not at
    all, and not at all when no cluster covers it. *)
Lemma normalizeToSessionSpace_final (y : Z) (sid : SessionId) (c : IdCompressor W) :
  0 <= y ->
  (fst (normalizeToSessionSpace W y sid c) = Ok y
   /\ Core.findByFinal y (Core.clusters (wasmCompressor W c)) <> None)
  \/ exists e, fst (normalizeToSessionSpace W y sid c) = Throw e.
Proof.
  intros Hy. destruct c as [s l t]. api_fields.
  assert (Hn : forall token s' l' t',
             Core.clusters s' = Core.clusters s ->
             (fst (bind (wasm W (Core.normalize_to_session_space y token)) (idOrError W)
                     (mkIdCompressor W s' l' t')) = Ok y
              /\ Core.findByFinal y (Core.clusters s) <> None)
             \/ exists e,
                 fst (bind (wasm W (Core.normalize_to_session_space y token)) (idOrError W)
                        (mkIdCompressor W s' l' t')) = Throw e).
  { intros token s' l' t' Hc. methods.
    unfold Core.normalize_to_session_space, Core.nan, Core.get_error_string.
    destruct (Core.session_of_token token s'); [|right; eauto].
    destruct (Z.leb_spec 0 y); [|lia]. rewrite Hc.
    destruct (Core.findByFinal y (Core.clusters s)); [left|right; eauto].
    split; [reflexivity|discriminate]. }
  assert (E : normalizeToSessionSpace W y sid (mkIdCompressor W s l t)
              = match getOrCreateSessionToken W sid (mkIdCompressor W s l t) with
                | (Ok token, c1) =>
                    bind (wasm W (Core.normalize_to_session_space y token))
                      (idOrError W) c1
                | (Throw e, c1) => (Throw e, c1)
                end) by reflexivity.
  rewrite E. clear E.
  destruct (getOrCreateSessionToken_cases W sid (mkIdCompressor W s l t))
    as [(token & _ & ->)|(_ & w' & [(token & Hg & ->)|(e & _ & ->)])];
    api_fields.
  - apply Hn. reflexivity.
  - apply Hn. change w' with (snd (Ok token, w')). rewrite <- Hg.
    apply get_token_keeps_clusters.
  - right. eauto.
Qed.

(** A local id whose GenCount a cluster of the local session covers
    does not come back from op space: it went there as its final id. *)
Lemma finalized_local_id_does_not_round_trip
    (x : Z) (cl : Core.Cluster) (c : IdCompressor W) :
  x < 0 ->
  Core.findBySessionGen (Core.localSession (wasmCompressor W c)) (- x)
    (Core.clusters (wasmCompressor W c)) = Some cl ->
  0 <= Core.finalOf cl (- x) ->
  normalizeToOpSpace W x c = (Ok (Core.finalOf cl (- x)), c)
  /\ fst (roundTrip W x c) <> Ok x.
Proof.
  intros Hx Hf Hnn.
  assert (Ho : normalizeToOpSpace W x c = (Ok (Core.finalOf cl (- x)), c)).
  { destruct c as [s l t]. api_fields. methods. unfold Core.normalize_to_op_space.
    destruct (Z.leb_spec 0 x); [lia|]. rewrite Hf. reflexivity. }
  split; [exact Ho|].
  unfold roundTrip, bind. rewrite Ho.
  destruct (normalizeToSessionSpace_final (Core.finalOf cl (- x))
              (localSessionId W c) c Hnn) as [[-> _]|[e ->]].
  - intros [= E]. lia.
  - discriminate.
Qed.

(** A final id that no cluster covers, such as one minted from the
    reserved slots of a cluster, does not come back either: the way back
    throws. *)
Lemma uncovered_final_id_does_not_round_trip (x : Z) (c : IdCompressor W) :
  0 <= x ->
  Core.findByFinal x (Core.clusters (wasmCompressor W c)) = None ->
  exists e, fst (roundTrip W x c) = Throw e.
Proof.
  intros Hx Hf.
  assert (Ho : normalizeToOpSpace W x c = (Ok x, c)).
  { destruct c as [s l t]. api_fields. methods. unfold Core.normalize_to_op_space.
    destruct (Z.leb_spec 0 x); [reflexivity|lia]. }
  unfold roundTrip, bind. rewrite Ho.
  destruct (normalizeToSessionSpace_final x (localSessionId W c) c Hx)
    as [[_ Hc]|He]; [congruence|exact He].
Qed.

End RoundTripFailures.

